(** * iijwLauncher: catalog search, download and launch orchestration

    A shallow embedding of the non-visual logic of [main.py]:
    [programLauncher.load_data], [programLauncher.filter_programs],
    [programLauncher.launch_program], the download callbacks and
    [Downloader.run].

    Python strings are [string]s whose characters are the code points below
    256.  The fuzzy scorer ([rapidfuzz.fuzz.WRatio]) and its preprocessor
    ([rapidfuzz.utils.default_process]) are library code: they are parameters
    of the development, a score being a rational number (every finite float
    is one, and the program only compares scores). *)

From Stdlib Require Import String Ascii List Bool Arith ZArith QArith Lia.
From Stdlib Require Import Permutation Sorted.
Import ListNotations.
Close Scope Q_scope.
Open Scope nat_scope.
Open Scope string_scope.

(** ** Python string operations used by the program *)

Module PyStr.

(** [str.isspace] on one character (code points below 256). *)
Definition isspace (c : ascii) : bool :=
  let n := nat_of_ascii c in
  (((9 <=? n) && (n <=? 13)) || ((28 <=? n) && (n <=? 31))
   || (n =? 32) || (n =? 133) || (n =? 160))%nat.

Fixpoint dropwhile {A} (f : A -> bool) (l : list A) : list A :=
  match l with
  | [] => []
  | x :: l' => if f x then dropwhile f l' else l
  end.

Definition rdropwhile {A} (f : A -> bool) (l : list A) : list A :=
  rev (dropwhile f (rev l)).

(** [s.strip()] *)
Definition strip (s : string) : string :=
  string_of_list_ascii
    (rdropwhile isspace (dropwhile isspace (list_ascii_of_string s))).

(** Truth value of a string: [bool(s)]. *)
Definition truthy (s : string) : bool :=
  match s with EmptyString => false | String _ _ => true end.

(** [s.replace(' ', '_')] *)
Fixpoint replace_space (s : string) : string :=
  match s with
  | EmptyString => EmptyString
  | String c s' =>
      String (if Ascii.eqb c " "%char then "_"%char else c) (replace_space s')
  end.

(** [l.index(x)]: the first position holding [x]; [None] stands for
    [ValueError]. *)
Fixpoint index (x : string) (l : list string) : option nat :=
  match l with
  | [] => None
  | y :: l' => if String.eqb y x then Some 0 else option_map S (index x l')
  end.

(** Path separators of [ntpath]. *)
Definition is_sep (c : ascii) : bool :=
  Ascii.eqb c "\"%char || Ascii.eqb c "/"%char.

(** [ntpath.dirname p] for a path without drive or root part (every path the
    program builds starts with [.\]): cut after the last separator, then
    strip the separators the head ends with. *)
Definition dirname (p : string) : string :=
  string_of_list_ascii
    (rdropwhile is_sep
       (rdropwhile (fun c => negb (is_sep c)) (list_ascii_of_string p))).

(** The string holds only whitespace (the empty string included). *)
Definition whitespace_only (s : string) : Prop :=
  Forall (fun c => isspace c = true) (list_ascii_of_string s).

End PyStr.

(** ** Catalog *)

(** One catalog entry: the JSON object with keys [program], [version],
    [README] and [binary_url]. *)
Record descriptor := mkDescriptor {
  program : string;
  version : string;
  README : string;
  binary_url : string
}.

Definition descriptor_eq_dec (a b : descriptor) : {a = b} + {a <> b}.
Proof. decide equality; apply string_dec. Defined.

(** The parsed JSON document: a single object or an array of objects. *)
Inductive json_data :=
| JDict (d : descriptor)
| JList (l : list descriptor).

(** [f"{program['program']} {program['version']} {program['README']}"] *)
Definition combined_text (p : descriptor) : string :=
  program p ++ " " ++ version p ++ " " ++ README p.

(** [self.search_choices]: one [(combined_text, program)] pair per entry. *)
Definition build_search_choices (l : list descriptor)
  : list (string * descriptor) :=
  map (fun p => (combined_text p, p)) l.

(** ** Fuzzy ranking: [rapidfuzz.process.extract] *)

(** A result of [process.extract]: [(choice, score, index)]. *)
Definition scored : Type := string * Q * nat.

Definition sc_text (r : scored) : string := fst (fst r).
Definition sc_score (r : scored) : Q := snd (fst r).
Definition sc_index (r : scored) : nat := snd r.

Section Ranking.

Variable default_process : string -> string.
Variable WRatio : string -> string -> Q.

(** The score of one choice: the processor is applied to both sides. *)
Definition score_of (query choice : string) : Q :=
  WRatio (default_process query) (default_process choice).

Fixpoint score_all (query : string) (choices : list string) (i : nat)
  : list scored :=
  match choices with
  | [] => []
  | c :: cs => (c, score_of query c, i) :: score_all query cs (S i)
  end.

(** Insertion before the first element whose score is not greater: equal
    scores keep the order of their indices. *)
Fixpoint insert_desc (x : scored) (l : list scored) : list scored :=
  match l with
  | [] => [x]
  | y :: l' =>
      if Qle_bool (sc_score y) (sc_score x) then x :: l
      else y :: insert_desc x l'
  end.

Definition sort_desc (l : list scored) : list scored :=
  fold_right insert_desc [] l.

(** [process.extract(query, choices, scorer=WRatio,
    processor=default_process, limit=limit)]: every choice is scored, the
    results are ordered by descending score, ties by ascending index, and
    the first [limit] are returned. *)
Definition extract (query : string) (choices : list string) (limit : nat)
  : list scored :=
  firstn limit (sort_desc (score_all query choices 0)).

(** The loop of [filter_programs] over the results.  [None] stands for an
    exception of [choice_texts.index] or of the subscript. *)
Fixpoint collect (results : list scored) (choice_texts : list string)
    (search_choices : list (string * descriptor))
  : option (list descriptor) :=
  match results with
  | [] => Some []
  | result :: rest =>
      match PyStr.index (sc_text result) choice_texts with
      | None => None
      | Some index =>
          if Qle_bool 60%Q (sc_score result) then
            match nth_error search_choices index with
            | None => None
            | Some choice =>
                option_map (cons (snd choice))
                  (collect rest choice_texts search_choices)
            end
          else collect rest choice_texts search_choices
      end
  end.

End Ranking.

(** ** The download thread: [Downloader.run] *)

(** A Python integer as a slot declared with [Signal(int)] receives it:
    the argument is a C [int] of 32 bits, and a value outside its range
    arrives wrapped around. *)
Definition to_int32 (n : Z) : Z :=
  ((n + 2 ^ 31) mod 2 ^ 32 - 2 ^ 31)%Z.

(** Signals a download thread sends to the window.  The first four are the
    [Signal]s of class [Downloader]; [finished] is the one of [QThread],
    sent when [run] has returned.  The two progress signals are declared
    [Signal(int)]: the number they carry is the one the slot receives,
    [to_int32] of the number given to [emit]. *)
Inductive signal :=
| setTotalProgress (n : Z)
| setCurrentProgress (n : Z)
| succeeded
| failed (message : string)
| finished.

Module Downloader.

(** What the network and the file system answer to one run.  A [Some] in an
    error field is the text of the exception raised at that call. *)
Record response := mkResponse {
  raise_for_status : option string;
  (** [headers.get('content-length', 0)] after [int]: [None] when the header
      is absent, [inl n] when [int] yields [n], [inr e] when [int] raises. *)
  content_length : option (Z + string);
  (** [open(self._filename, 'wb')] *)
  open_error : option string;
  (** the chunks of [iter_content], each with the outcome of [f.write] *)
  body : list (list Byte.byte * option string);
  (** an exception of [iter_content] after the last chunk *)
  body_error : option string;
  (** an exception of closing the file when the [with] block is left *)
  close_error : option string
}.

(** [requests.get] raises or returns a response. *)
Definition network : Type := string + response.

(** What [run] does that others can see, in program order. *)
Inductive action :=
| Write (chunk : list Byte.byte)
| Emit (s : signal).

Definition total_size (r : response) : Z + string :=
  match content_length r with
  | None => inl 0%Z
  | Some v => v
  end.

(** The [for] loop; the second component is the exception that ends it. *)
Fixpoint iter_content (downloaded_size : Z)
    (chunks : list (list Byte.byte * option string))
    (end_error : option string) : list action * option string :=
  match chunks with
  | [] => ([], end_error)
  | (chunk, write_error) :: rest =>
      match chunk with
      | [] => iter_content downloaded_size rest end_error
      | _ :: _ =>
          match write_error with
          | Some e => ([], Some e)
          | None =>
              let downloaded_size :=
                (downloaded_size + Z.of_nat (length chunk))%Z in
              let '(acts, exc) :=
                iter_content downloaded_size rest end_error in
              (Write chunk
               :: Emit (setCurrentProgress (to_int32 downloaded_size))
               :: acts,
               exc)
          end
      end
  end.

(** The [with open(...)] block: an exception of closing replaces the one
    that left the block. *)
Definition with_open (r : response) : list action * option string :=
  match open_error r with
  | Some e => ([], Some e)
  | None =>
      let '(acts, exc) := iter_content 0%Z (body r) (body_error r) in
      (acts, match close_error r with Some e => Some e | None => exc end)
  end.

(** The body of the [try]. *)
Definition try_body (net : network) : list action * option string :=
  match net with
  | inl e => ([], Some e)
  | inr r =>
      match raise_for_status r with
      | Some e => ([], Some e)
      | None =>
          match total_size r with
          | inr e => ([], Some e)
          | inl total =>
              let '(acts, exc) := with_open r in
              (Emit (setTotalProgress (to_int32 total)) :: acts, exc)
          end
      end
  end.

Definition run (net : network) : list action :=
  let '(acts, exc) := try_body net in
  match exc with
  | None => (acts ++ [Emit succeeded])%list
  | Some e => (acts ++ [Emit (failed e)])%list
  end.

(** The signals of a trace, in order. *)
Fixpoint signals (acts : list action) : list signal :=
  match acts with
  | [] => []
  | Write _ :: rest => signals rest
  | Emit s :: rest => s :: signals rest
  end.

(** The number of bytes a trace has written to the file. *)
Fixpoint bytes_written (acts : list action) : Z :=
  match acts with
  | [] => 0%Z
  | Write chunk :: rest => (Z.of_nat (length chunk) + bytes_written rest)%Z
  | Emit _ :: rest => bytes_written rest
  end.

Definition is_terminal (s : signal) : bool :=
  match s with succeeded | failed _ => true | _ => false end.

Definition is_progress (s : signal) : bool :=
  match s with setCurrentProgress _ => true | _ => false end.

(** The response arrived and its status was accepted. *)
Definition response_ok (net : network) : Prop :=
  exists r, net = inr r /\ raise_for_status r = None.

(** [TotalSizeKnown?, Progress*, (Succeeded|Failed)] *)
Definition in_order (evs : list signal) : Prop :=
  exists pre progs term,
    evs = (pre ++ progs ++ [term])%list
    /\ (pre = [] \/ exists n, pre = [setTotalProgress n])
    /\ Forall (fun s => is_progress s = true) progs
    /\ is_terminal term = true.

(** The signal announces the total size. *)
Definition is_total (s : signal) : bool :=
  match s with setTotalProgress _ => true | _ => false end.

(** Every progress signal of the trace carries [d] plus the bytes written
    before it, as a C [int]. *)
Fixpoint cumulative (d : Z) (acts : list action) : Prop :=
  match acts with
  | [] => True
  | Write chunk :: rest => cumulative (d + Z.of_nat (length chunk)) rest
  | Emit (setCurrentProgress n) :: rest => n = to_int32 d /\ cumulative d rest
  | Emit _ :: rest => cumulative d rest
  end.

End Downloader.

(** ** The window and the world around it *)

(** A started [Downloader] thread: what it was constructed with and the
    signals it has sent that the window has not handled yet. *)
Record thread := mkThread {
  thread_url : string;
  thread_filename : string;
  pending : list signal
}.

(** The attributes of [programLauncher] the logic reads or writes, followed
    by the part of the world it acts on. *)
Record state := mkState {
  program_data : list descriptor;
  original_program_data : list descriptor;
  search_choices : list (string * descriptor);
  (** the items of [self.program_list] and its [currentRow()] ([-1]: none) *)
  program_list : list string;
  current_row : Z;
  launch_button_enabled : bool;
  launch_button_text : string;
  progress_visible : bool;
  (** [self.downloader]: the url and file name of the object, or [None] *)
  downloader : option (string * string);
  (** the messages passed to [self.log], oldest first *)
  log_lines : list string;
  (** paths for which [os.path.exists] holds *)
  existing : list string;
  (** download threads started and not yet finished *)
  threads : list thread;
  (** the paths [subprocess.Popen] was called with, oldest first *)
  popen_calls : list string
}.

Definition set_catalog (pd orig : list descriptor)
    (sc : list (string * descriptor)) (st : state) : state :=
  mkState pd orig sc (program_list st) (current_row st)
    (launch_button_enabled st) (launch_button_text st) (progress_visible st)
    (downloader st) (log_lines st) (existing st) (threads st) (popen_calls st).

Definition set_program_data (pd : list descriptor) (st : state) : state :=
  set_catalog pd (original_program_data st) (search_choices st) st.

Definition set_list (items : list string) (row : Z) (st : state) : state :=
  mkState (program_data st) (original_program_data st) (search_choices st)
    items row
    (launch_button_enabled st) (launch_button_text st) (progress_visible st)
    (downloader st) (log_lines st) (existing st) (threads st) (popen_calls st).

Definition set_launch_button (enabled : bool) (text : string) (st : state)
  : state :=
  mkState (program_data st) (original_program_data st) (search_choices st)
    (program_list st) (current_row st)
    enabled text (progress_visible st)
    (downloader st) (log_lines st) (existing st) (threads st) (popen_calls st).

Definition set_progress_visible (b : bool) (st : state) : state :=
  mkState (program_data st) (original_program_data st) (search_choices st)
    (program_list st) (current_row st)
    (launch_button_enabled st) (launch_button_text st) b
    (downloader st) (log_lines st) (existing st) (threads st) (popen_calls st).

Definition set_downloader (d : option (string * string)) (st : state)
  : state :=
  mkState (program_data st) (original_program_data st) (search_choices st)
    (program_list st) (current_row st)
    (launch_button_enabled st) (launch_button_text st) (progress_visible st)
    d (log_lines st) (existing st) (threads st) (popen_calls st).

Definition set_existing (paths : list string) (st : state) : state :=
  mkState (program_data st) (original_program_data st) (search_choices st)
    (program_list st) (current_row st)
    (launch_button_enabled st) (launch_button_text st) (progress_visible st)
    (downloader st) (log_lines st) paths (threads st) (popen_calls st).

Definition set_threads (ts : list thread) (st : state) : state :=
  mkState (program_data st) (original_program_data st) (search_choices st)
    (program_list st) (current_row st)
    (launch_button_enabled st) (launch_button_text st) (progress_visible st)
    (downloader st) (log_lines st) (existing st) ts (popen_calls st).

Definition set_popen_calls (calls : list string) (st : state) : state :=
  mkState (program_data st) (original_program_data st) (search_choices st)
    (program_list st) (current_row st)
    (launch_button_enabled st) (launch_button_text st) (progress_visible st)
    (downloader st) (log_lines st) (existing st) (threads st) calls.

(** [self.log(message)] *)
Definition log (message : string) (st : state) : state :=
  mkState (program_data st) (original_program_data st) (search_choices st)
    (program_list st) (current_row st)
    (launch_button_enabled st) (launch_button_text st) (progress_visible st)
    (downloader st) (log_lines st ++ [message])%list
    (existing st) (threads st) (popen_calls st).

(** [os.path.exists(path)] *)
Definition os_path_exists (st : state) (path : string) : bool :=
  existsb (String.eqb path) (existing st).

(** [self.program_list.clear()], one [addItem] per program, and
    [setCurrentRow(0)] when there is one: the tail of both [load_data] and
    [filter_programs].  A cleared list has no current row. *)
Definition refresh_list (st : state) : state :=
  set_list (map program (program_data st))
    (match program_data st with [] => (-1)%Z | _ :: _ => 0%Z end) st.

(** [0 <= current_row < len(self.program_data)] *)
Definition in_bounds (row : Z) (l : list descriptor) : bool :=
  ((0 <=? row) && (row <? Z.of_nat (length l)))%Z.

(** The descriptor the current row selects in the active view, if any. *)
Definition selected (st : state) : option descriptor :=
  if in_bounds (current_row st) (program_data st)
  then nth_error (program_data st) (Z.to_nat (current_row st))
  else None.

(** [fr".\bin\{program_name.replace(' ', '_')}.exe"] *)
Definition binary_path_of (program_name : string) : string :=
  ".\bin\" ++ PyStr.replace_space program_name ++ ".exe".

(** What the world answers during one call of a handler: the exception of
    [os.makedirs] and of [subprocess.Popen], if any, and the behaviour of
    the network for a thread the call starts. *)
Record env := mkEnv {
  makedirs_error : option string;
  popen_error : option string;
  network : Downloader.network
}.

(** How a handler ends: it returns, or an exception leaves it. *)
Inductive outcome :=
| Returned
| Raised (e : string).

(** The window as [__init__] leaves it before [load_data]. *)
Definition fresh (paths : list string) : state :=
  mkState [] [] [] [] (-1)%Z true "Launch" false None [] paths [] [].

(** [load_data] once the document has been fetched and parsed. *)
Definition load_data (data : json_data) (st : state) : state :=
  let program_data := match data with JDict d => [d] | JList l => l end in
  refresh_list
    (set_catalog program_data program_data
       (build_search_choices program_data) st).

(** [load_custom_font] *)
Definition load_custom_font (font_loaded : bool) (st : state) : state :=
  if font_loaded then log "Custom font loaded successfully" st
  else log "Custom font not found or failed to load. Using system default." st.

(** [programLauncher.__init__] *)
Definition init (data : json_data) (font_loaded : bool)
    (paths : list string) : state :=
  set_downloader None
    (log "Application started"
       (load_custom_font font_loaded (load_data data (fresh paths)))).

(** [launch_existing_program] *)
Definition launch_existing_program (e : env) (binary_path : string)
    (st : state) : state :=
  let st := log ("Starting: " ++ binary_path) st in
  let st := set_popen_calls (popen_calls st ++ [binary_path])%list st in
  match popen_error e with
  | None => log (binary_path ++ " started successfully") st
  | Some err => log ("Error starting: " ++ err) st
  end.

(** [launch_program] *)
Definition launch_program (e : env) (st : state) : state * outcome :=
  let st := log "Launch button pressed" st in
  let current_row := current_row st in
  if negb (in_bounds current_row (program_data st)) then
    (log "No program selected" st, Returned)
  else
    match nth_error (program_data st) (Z.to_nat current_row) with
    | None => (st, Raised "IndexError")
    | Some program_data =>
        let program_name := program program_data in
        let binary_url := binary_url program_data in
        let binary_path := binary_path_of program_name in
        if negb (os_path_exists st binary_path) then
          let st := log ("Starting download of " ++ program_name) st in
          let bin_dir := PyStr.dirname binary_path in
          let made :=
            if negb (os_path_exists st bin_dir) then
              match makedirs_error e with
              | Some err => inr err
              | None =>
                  inl (log ("Created directory: " ++ bin_dir)
                         (set_existing (existing st ++ [bin_dir])%list st))
              end
            else inl st in
          match made with
          | inr err => (st, Raised err)
          | inl st =>
              let st := set_progress_visible true st in
              let st := set_launch_button false "Downloading..." st in
              let st := set_downloader (Some (binary_url, binary_path)) st in
              let job :=
                mkThread binary_url binary_path
                  (Downloader.signals (Downloader.run (network e))
                   ++ [finished])%list in
              (set_threads (threads st ++ [job])%list st, Returned)
          end
        else (launch_existing_program e binary_path st, Returned)
    end.

(** [download_succeeded] *)
Definition download_succeeded (e : env) (st : state) : state :=
  let st := log "Binary downloaded successfully" st in
  let current_row := current_row st in
  if in_bounds current_row (program_data st) then
    match nth_error (program_data st) (Z.to_nat current_row) with
    | None => st
    | Some program_data =>
        launch_existing_program e (binary_path_of (program program_data)) st
    end
  else st.

(** [download_failed] *)
Definition download_failed (error_message : string) (st : state) : state :=
  set_launch_button (launch_button_enabled st) "Launch Failed"
    (log ("Download failed: " ++ error_message) st).

(** [download_finished] *)
Definition download_finished (st : state) : state :=
  let st := set_launch_button true "Launch" st in
  match downloader st with
  | Some _ => set_downloader None st
  | None => st
  end.

(** ** Search and the event loop *)

(** Delivery of the next pending signal of thread number [i]: the signal and
    the threads that remain.  A thread whose [finished] has been delivered
    is gone. *)
Fixpoint pop_signal (i : nat) (ts : list thread)
  : option (signal * list thread) :=
  match ts with
  | [] => None
  | t :: ts' =>
      match i with
      | O =>
          match pending t with
          | [] => None
          | finished :: _ => Some (finished, ts')
          | s :: rest =>
              Some (s, mkThread (thread_url t) (thread_filename t) rest :: ts')
          end
      | S j =>
          match pop_signal j ts' with
          | Some (s, l) => Some (s, t :: l)
          | None => None
          end
      end
  end.

(** The slot each signal is connected to in [launch_program].  The two
    progress signals go to slots of the progress bar, a widget whose state
    is not part of [state]. *)
Definition on_signal (s : signal) (e : env) (st : state) : state :=
  match s with
  | setTotalProgress _ => st
  | setCurrentProgress _ => st
  | succeeded => download_succeeded e st
  | failed message => download_failed message st
  | finished => download_finished st
  end.

(** What the event loop of the window can be asked to handle. *)
Inductive event :=
(** [search_input.textChanged] *)
| TextChanged (text : string)
(** the user makes [row] the current row of the list *)
| RowSelected (row : Z)
(** [launch_button.clicked]: a disabled button does not send it *)
| LaunchClicked (e : env)
(** the next signal of thread [i] reaches its slot *)
| Deliver (i : nat) (e : env)
(** the files on disk change (a download thread writes, or anyone else) *)
| FsChanged (paths : list string).

Section Launcher.

Variable default_process : string -> string.
Variable WRatio : string -> string -> Q.

(** [filter_programs]; an exception inside the loop leaves the handler
    before anything is assigned. *)
Definition filter_programs (search_text : string) (st : state) : state :=
  if negb (PyStr.truthy (PyStr.strip search_text)) then
    refresh_list (set_program_data (original_program_data st) st)
  else
    let choice_texts := map fst (search_choices st) in
    let results :=
      extract default_process WRatio search_text choice_texts
        (length choice_texts) in
    match collect results choice_texts (search_choices st) with
    | Some filtered_programs =>
        refresh_list (set_program_data filtered_programs st)
    | None => st
    end.

(** One turn of the event loop; [None] when the event cannot occur in this
    state. *)
Definition handle (ev : event) (st : state) : option state :=
  match ev with
  | TextChanged text => Some (filter_programs text st)
  | RowSelected row =>
      if ((-1 <=? row) && (row <? Z.of_nat (length (program_list st))))%Z
      then Some (set_list (program_list st) row st)
      else None
  | LaunchClicked e =>
      if launch_button_enabled st then Some (fst (launch_program e st))
      else None
  | Deliver i e =>
      match pop_signal i (threads st) with
      | Some (s, ts) => Some (on_signal s e (set_threads ts st))
      | None => None
      end
  | FsChanged paths => Some (set_existing paths st)
  end.

Fixpoint exec (evs : list event) (st : state) : option state :=
  match evs with
  | [] => Some st
  | ev :: rest =>
      match handle ev st with
      | Some st' => exec rest st'
      | None => None
      end
  end.

(** The states a run of the application goes through. *)
Definition reachable (st : state) : Prop :=
  exists data font_loaded paths evs,
    exec evs (init data font_loaded paths) = Some st.

(** The entry scores at least 60 against the query. *)
Definition keeps (query : string) (d : descriptor) : bool :=
  Qle_bool 60%Q (score_of default_process WRatio query (combined_text d)).

(** The order the specification asks of the view: a greater score first,
    and among equal scores the order of the catalog. *)
Definition catalog_order (catalog : list descriptor) (query : string)
    (a b : descriptor) : Prop :=
  let score d := score_of default_process WRatio query (combined_text d) in
  (score b < score a)%Q
  \/ ((score a == score b)%Q
      /\ exists i j,
           i < j /\ nth_error catalog i = Some a
           /\ nth_error catalog j = Some b).

End Launcher.

(** ** The footer log: [update_footer_log] *)

Module Footer.

(** The line feed, ['\n']. *)
Definition newline : ascii := ascii_of_nat 10.

(** [s.split('\n')]: the empty string gives one empty line. *)
Fixpoint split_lines (s : string) : list string :=
  match s with
  | EmptyString => [EmptyString]
  | String c s' =>
      if Ascii.eqb c newline then EmptyString :: split_lines s'
      else
        match split_lines s' with
        | [] => [String c EmptyString]
        | line :: lines => String c line :: lines
        end
  end.

(** ['\n'.join(lines)] *)
Fixpoint join_lines (lines : list string) : string :=
  match lines with
  | [] => EmptyString
  | [line] => line
  | line :: rest => line ++ String newline (join_lines rest)
  end.

(** What [logging.Formatter('%(asctime)s - %(levelname)s - %(message)s')]
    makes of an [INFO] record without arguments; [asctime] is the time of
    the record as the formatter prints it. *)
Definition format (asctime message : string) : string :=
  asctime ++ " - INFO - " ++ message.

(** [update_footer_log]: from the text the footer holds to the text it is
    given. *)
Definition update_footer_log (asctime current_text message : string)
  : string :=
  let timestamp := format asctime message in
  let lines := split_lines current_text in
  let lines := (lines ++ [timestamp])%list in
  let lines :=
    if (3 <? length lines)%nat then skipn (length lines - 3) lines
    else lines in
  join_lines lines.

(** The string holds no line feed. *)
Definition one_line (s : string) : Prop :=
  ~ In newline (list_ascii_of_string s).

End Footer.

(** ** Dragging the window: [CustomTitleBar] *)

Module TitleBar.

(** A [QPoint]. *)
Record point := mkPoint { px : Z; py : Z }.

(** The window a title bar moves: where it is and its [old_pos]. *)
Record window := mkWindow { pos : point; old_pos : point }.

(** A mouse event: whether the left button is concerned ([event.button()
    == Qt.LeftButton] for a press, [event.buttons() == Qt.LeftButton] for
    a move) and [event.globalPosition().toPoint()]. *)
Record mouse := mkMouse { left : bool; global : point }.

(** [mousePressEvent] *)
Definition mousePressEvent (ev : mouse) (w : window) : window :=
  if left ev then mkWindow (pos w) (global ev) else w.

(** [mouseMoveEvent] *)
Definition mouseMoveEvent (ev : mouse) (w : window) : window :=
  if left ev then
    let delta :=
      mkPoint (px (global ev) - px (old_pos w))
              (py (global ev) - py (old_pos w)) in
    mkWindow (mkPoint (px (pos w) + px delta) (py (pos w) + py delta))
             (global ev)
  else w.

(** The moves of one drag, in order. *)
Definition drag (moves : list mouse) (w : window) : window :=
  fold_left (fun w ev => mouseMoveEvent ev w) moves w.

End TitleBar.

(** ** More vocabulary *)

(** The bytes a trace has written to the file, in order. *)
Fixpoint file_content (acts : list Downloader.action) : list Byte.byte :=
  match acts with
  | [] => []
  | Downloader.Write chunk :: rest => (chunk ++ file_content rest)%list
  | Downloader.Emit _ :: rest => file_content rest
  end.

(** The payloads of the progress signals, in order. *)
Fixpoint progress_values (evs : list signal) : list Z :=
  match evs with
  | [] => []
  | setCurrentProgress n :: rest => n :: progress_values rest
  | _ :: rest => progress_values rest
  end.

(** The progress values of a trace that starts counting at [d]: the counts
    grow strictly from above [d] to [d] plus the bytes given to [f.write],
    and each arrives as a C [int]. *)
Definition counts_up (d : Z) (acts : list Downloader.action) : Prop :=
  exists counts,
    progress_values (Downloader.signals acts) = map to_int32 counts
    /\ StronglySorted Z.lt counts
    /\ Forall (fun n => (d < n <= d + Downloader.bytes_written acts)%Z) counts
    /\ last counts d = (d + Downloader.bytes_written acts)%Z.

(** The name holds no path separator. *)
Definition plain_name (name : string) : Prop :=
  Forall (fun c => PyStr.is_sep c = false) (list_ascii_of_string name).

(** The log and the list of [Popen] calls of [st'] continue those of
    [st]. *)
Definition continues (st st' : state) : Prop :=
  (exists more, log_lines st' = (log_lines st ++ more)%list)
  /\ (exists calls, popen_calls st' = (popen_calls st ++ calls)%list).

(** The list widget shows the names of the active view and the current
    row is a row of it, or none. *)
Definition selection_in_view (st : state) : Prop :=
  program_list st = map program (program_data st)
  /\ (-1 <= current_row st < Z.of_nat (length (program_data st)))%Z.

(** ** Vocabulary of the statements *)

(** The directory of the destination is there or can be made. *)
Definition directory_ready (e : env) (st : state) (path : string) : bool :=
  os_path_exists st (PyStr.dirname path)
  || match makedirs_error e with None => true | Some _ => false end.

(** At most one thread is in flight, and none while the launch button is
    enabled. *)
Definition single_download (st : state) : Prop :=
  length (threads st) <= 1
  /\ (launch_button_enabled st = true -> threads st = []).

(** The first entry of the catalog whose search text is [text]. *)
Definition first_with_text (catalog : list descriptor) (text : string)
  : option descriptor :=
  find (fun d => String.eqb (combined_text d) text) catalog.

(** The window holds the search choices of its original catalog. *)
Definition loaded (st : state) : Prop :=
  search_choices st = build_search_choices (original_program_data st).

(** The order of a ranking: a greater score first, and among equal scores
    the smaller index first. *)
Definition ranked_before (a b : scored) : Prop :=
  (sc_score b < sc_score a)%Q
  \/ ((sc_score a == sc_score b)%Q /\ sc_index a < sc_index b).

(** The entries of the fetched document. *)
Definition entries (data : json_data) : list descriptor :=
  match data with JDict d => [d] | JList l => l end.

(** The original catalog is the fetched one, the search choices are built
    from it, every entry of the active view is an entry of the original,
    and the list widget shows the names of the active view. *)
Definition consistent (data : json_data) (st : state) : Prop :=
  original_program_data st = entries data
  /\ loaded st
  /\ incl (program_data st) (original_program_data st)
  /\ program_list st = map program (program_data st).

(** ** Concrete data for the examples *)

Module Sample.

(** A stand-in for the library's preprocessor and scorer, used where an
    example has to compute: the score is 100 when the query is a prefix of
    the choice and 0 otherwise. *)
Definition default_process (s : string) : string := s.

Definition WRatio (query choice : string) : Q :=
  if String.prefix query choice then 100%Q else 0%Q.

Definition foo : descriptor :=
  mkDescriptor "Foo" "1.0" "# Foo" "http://x/foo.exe".

Definition my_tool : descriptor :=
  mkDescriptor "My Tool" "2.1" "A tool" "http://x/tool.exe".

(** Two entries with different names and one search text,
    [Tool 2 beta x]. *)
Definition tool : descriptor :=
  mkDescriptor "Tool" "2 beta" "x" "http://x/tool.exe".

Definition tool2 : descriptor :=
  mkDescriptor "Tool 2" "beta" "x" "http://x/tool2.exe".

(** An entry whose search text is [Tool 3 beta x]. *)
Definition tool3 : descriptor :=
  mkDescriptor "Tool 3" "beta" "x" "http://x/tool3.exe".

(** A response of two chunks, three bytes and two bytes. *)
Definition two_chunks : Downloader.network :=
  inr (Downloader.mkResponse None (Some (inl 5%Z)) None
         [([Byte.x61; Byte.x62; Byte.x63], None);
          ([Byte.x64; Byte.x65], None)] None None).

Definition connection_reset : Downloader.network := inl "connection reset".

Definition quiet : env := mkEnv None None two_chunks.

Definition no_makedirs : env :=
  mkEnv (Some "[WinError 5] Access is denied: '.\\bin'") None two_chunks.

End Sample.

(** A response whose body is two gibibytes: 2^18 chunks of 8192 bytes,
    every write succeeding. *)
Definition two_gib : Downloader.response :=
  Downloader.mkResponse None None None
    (repeat (repeat Byte.x00 (2 ^ 13), None) (2 ^ 18)) None None.

(** ** Facts about the string operations *)

Lemma dropwhile_all {A} (f : A -> bool) (l : list A) :
  Forall (fun x => f x = true) l -> PyStr.dropwhile f l = [].
Proof.
  induction 1 as [|x l Hx _ IH]; simpl; [reflexivity|].
  now rewrite Hx.
Qed.

Lemma strip_whitespace_only (s : string) :
  PyStr.whitespace_only s -> PyStr.strip s = "".
Proof.
  unfold PyStr.whitespace_only, PyStr.strip. intros H.
  now rewrite (dropwhile_all _ _ H).
Qed.

Lemma replace_space_length (s : string) :
  String.length (PyStr.replace_space s) = String.length s.
Proof. induction s as [|c s IH]; simpl; congruence. Qed.

Lemma replace_space_get (s : string) (i : nat) :
  String.get i (PyStr.replace_space s)
  = option_map (fun c => if Ascii.eqb c " "%char then "_"%char else c)
      (String.get i s).
Proof.
  revert i. induction s as [|c s IH]; intros i; simpl; [reflexivity|].
  destruct i; [reflexivity|apply IH].
Qed.

(** ** The download thread *)

Module DownloaderFacts.
Import Downloader.

Lemma signals_app (a b : list action) :
  signals (a ++ b) = (signals a ++ signals b)%list.
Proof.
  induction a as [|[c|s] a IH]; simpl; [reflexivity|exact IH|now rewrite IH].
Qed.

Lemma bytes_written_app (a b : list action) :
  bytes_written (a ++ b) = (bytes_written a + bytes_written b)%Z.
Proof.
  induction a as [|[c|s] a IH]; simpl; rewrite ?IH; lia.
Qed.

Lemma to_int32_small (n : Z) :
  (- 2 ^ 31 <= n < 2 ^ 31)%Z -> to_int32 n = n.
Proof.
  intros H. unfold to_int32.
  change (2 ^ 31)%Z with 2147483648%Z in *.
  change (2 ^ 32)%Z with 4294967296%Z.
  rewrite Z.mod_small; lia.
Qed.

Lemma to_int32_range (n : Z) : (- 2 ^ 31 <= to_int32 n < 2 ^ 31)%Z.
Proof.
  unfold to_int32.
  change (2 ^ 31)%Z with 2147483648%Z.
  change (2 ^ 32)%Z with 4294967296%Z.
  pose proof (Z.mod_pos_bound (n + 2147483648) 4294967296 eq_refl). lia.
Qed.

Lemma bytes_written_nonneg (acts : list action) :
  (0 <= bytes_written acts)%Z.
Proof. induction acts as [|[c|s] acts IH]; simpl; lia. Qed.

Lemma cumulative_split (acts : list action) :
  forall d pre n post,
    cumulative d acts ->
    acts = (pre ++ Emit (setCurrentProgress n) :: post)%list ->
    n = to_int32 (d + bytes_written pre).
Proof.
  induction acts as [|a acts IH]; intros d pre n post Hc Heq.
  - now destruct pre.
  - destruct pre as [|p pre]; cbn [app] in Heq; injection Heq as -> Hrest.
    + cbn [cumulative bytes_written] in *. rewrite Z.add_0_r. apply Hc.
    + destruct p as [chunk|s]; cbn [cumulative bytes_written] in *.
      * rewrite (IH _ _ _ _ Hc Hrest). f_equal. lia.
      * destruct s; try (now apply (IH _ _ _ _ Hc Hrest)).
        destruct Hc as [_ Hc]. now apply (IH _ _ _ _ Hc Hrest).
Qed.

Lemma cumulative_snoc_terminal (acts : list action) (s : signal) :
  is_terminal s = true ->
  forall d, cumulative d acts -> cumulative d (acts ++ [Emit s]).
Proof.
  intros Hs. induction acts as [|[chunk|t] acts IH]; intros d Hc; simpl in *.
  - now destruct s.
  - now apply IH.
  - destruct t; try (now apply IH). destruct Hc; split; [assumption|].
    now apply IH.
Qed.

Lemma iter_content_trace chunks :
  forall d end_error acts exc,
    iter_content d chunks end_error = (acts, exc) ->
    Forall (fun s => is_progress s = true) (signals acts)
    /\ cumulative d acts.
Proof.
  induction chunks as [|[chunk werr] chunks IH]; intros d ee acts exc H;
    simpl in H.
  - injection H as <- _. now split.
  - destruct chunk as [|b chunk]; [now apply (IH _ _ _ _ H)|].
    destruct werr as [e|].
    + injection H as <- _. now split.
    + destruct (iter_content _ chunks ee) as [acts' exc'] eqn:E.
      injection H as <- _. destruct (IH _ _ _ _ E) as [Hp Hc].
      split; simpl; [now constructor|]. split; [reflexivity|exact Hc].
Qed.

Lemma with_open_trace r acts exc :
  with_open r = (acts, exc) ->
  Forall (fun s => is_progress s = true) (signals acts)
  /\ cumulative 0 acts.
Proof.
  unfold with_open. destruct (open_error r).
  - intros H; injection H as <- _. now split.
  - destruct (iter_content 0 (body r) (body_error r)) as [a x] eqn:E.
    intros H; injection H as <- _. exact (iter_content_trace _ _ _ _ _ E).
Qed.

(** The shape of the body of the [try]: nothing at all when no response was
    accepted, otherwise the total followed by progress signals. *)
Lemma try_body_trace net acts exc :
  try_body net = (acts, exc) ->
  cumulative 0 acts
  /\ ((acts = [] /\ exc <> None)
      \/ (response_ok net
          /\ exists n rest,
               acts = Emit (setTotalProgress n) :: rest
               /\ Forall (fun s => is_progress s = true) (signals rest))).
Proof.
  unfold try_body. destruct net as [e|r].
  - intros H; injection H as <- <-. split; [exact I|]. now left.
  - destruct (raise_for_status r) as [e|] eqn:Hs.
    + intros H; injection H as <- <-. split; [exact I|]. now left.
    + destruct (total_size r) as [total|e].
      * destruct (with_open r) as [a x] eqn:E.
        intros H; injection H as <- _.
        destruct (with_open_trace _ _ _ E) as [Hp Hc].
        split; [exact Hc|]. right. split; [now exists r|].
        now exists (to_int32 total), a.
      * intros H; injection H as <- <-. split; [exact I|]. now left.
Qed.

Lemma filter_none {A} (f : A -> bool) (l : list A) :
  Forall (fun x => f x = false) l -> filter f l = [].
Proof.
  induction 1 as [|x l Hx _ IH]; simpl; [reflexivity|]. now rewrite Hx.
Qed.

Lemma progress_not_terminal (l : list signal) :
  Forall (fun s => is_progress s = true) l ->
  Forall (fun s => is_terminal s = false) l
  /\ Forall (fun s => is_total s = false) l.
Proof.
  induction 1 as [|s l Hs _ [IH1 IH2]]; [now split|].
  destruct s; try discriminate. split; now constructor.
Qed.

End DownloaderFacts.

(** C6 as amended. For every answer of the network and the file system, the
    signals of one run of [Downloader.run] come in the order: the total size
    at most once, then progress signals, then one terminal signal.  The
    total size is sent only when a response arrived and its status was
    accepted; every progress signal carries the number of bytes written
    before it as a C [int] of 32 bits, which is that number itself as long
    as it is below 2^31; and exactly one signal of the run is [succeeded]
    or [failed]. *)
Theorem run_signal_order (net : Downloader.network) :
  let trace := Downloader.run net in
  let evs := Downloader.signals trace in
  Downloader.in_order evs
  /\ length (filter Downloader.is_total evs) <= 1
  /\ (forall n, In (setTotalProgress n) evs -> Downloader.response_ok net)
  /\ (forall pre n post,
        trace = (pre ++ Downloader.Emit (setCurrentProgress n) :: post)%list ->
        n = to_int32 (Downloader.bytes_written pre)
        /\ ((Downloader.bytes_written pre < 2 ^ 31)%Z ->
            n = Downloader.bytes_written pre))
  /\ length (filter Downloader.is_terminal evs) = 1.
Proof.
  intros trace evs. subst evs trace. unfold Downloader.run.
  destruct (Downloader.try_body net) as [acts exc] eqn:E.
  destruct (DownloaderFacts.try_body_trace _ _ _ E) as [Hc Hshape].
  set (term := match exc with Some e => failed e | None => succeeded end).
  assert (Hrun : (match exc with
                  | Some e => acts ++ [Downloader.Emit (failed e)]
                  | None => acts ++ [Downloader.Emit succeeded]
                  end = acts ++ [Downloader.Emit term])%list)
    by (subst term; now destruct exc).
  rewrite Hrun. clear Hrun.
  assert (Hterm : Downloader.is_terminal term = true)
    by (subst term; now destruct exc).
  clearbody term.
  rewrite DownloaderFacts.signals_app. simpl.
  assert (Hcum : forall pre n post,
             (acts ++ [Downloader.Emit term]
              = pre ++ Downloader.Emit (setCurrentProgress n) :: post)%list ->
             n = to_int32 (Downloader.bytes_written pre)
             /\ ((Downloader.bytes_written pre < 2 ^ 31)%Z ->
                 n = Downloader.bytes_written pre)).
  { intros pre n post Heq.
    apply (DownloaderFacts.cumulative_split _ 0%Z pre n post) in Heq;
      [|now apply DownloaderFacts.cumulative_snoc_terminal].
    rewrite Z.add_0_l in Heq. split; [exact Heq|].
    intros Hsmall. rewrite Heq. apply DownloaderFacts.to_int32_small.
    pose proof (DownloaderFacts.bytes_written_nonneg pre).
    change (2 ^ 31)%Z with 2147483648%Z in *. lia. }
  destruct Hshape as [[-> _]|[Hok (n & rest & -> & Hp)]]; simpl.
  - split; [|split; [|split; [|split; [exact Hcum|]]]].
    + exists [], [], term. repeat split; auto.
    + destruct term; simpl; lia.
    + intros n [Hn|[]]. now rewrite Hn in Hterm.
    + now rewrite Hterm.
  - destruct (DownloaderFacts.progress_not_terminal _ Hp) as [Hnt Hntot].
    split; [|split; [|split; [|split; [exact Hcum|]]]].
    + exists [setTotalProgress n], (Downloader.signals rest), term.
      repeat split; auto. right. now exists n.
    + rewrite filter_app, (DownloaderFacts.filter_none _ _ Hntot). simpl.
      destruct term; try discriminate Hterm; simpl; lia.
    + intros _ _. exact Hok.
    + rewrite filter_app, (DownloaderFacts.filter_none _ _ Hnt). simpl.
      now rewrite Hterm.
Qed.

(** ** Launching *)

Lemma selected_Some (st : state) (d : descriptor) :
  selected st = Some d ->
  in_bounds (current_row st) (program_data st) = true
  /\ nth_error (program_data st) (Z.to_nat (current_row st)) = Some d.
Proof.
  unfold selected. destruct (in_bounds _ _); [now split|discriminate].
Qed.

Lemma in_bounds_nth (row : Z) (l : list descriptor) :
  in_bounds row l = true -> exists d, nth_error l (Z.to_nat row) = Some d.
Proof.
  unfold in_bounds. intros H. apply andb_true_iff in H as [H0 H1].
  apply Z.leb_le in H0. apply Z.ltb_lt in H1.
  destruct (nth_error l (Z.to_nat row)) as [d|] eqn:E; [now exists d|].
  apply nth_error_None in E. lia.
Qed.

Lemma selected_None (st : state) :
  selected st = None <-> in_bounds (current_row st) (program_data st) = false.
Proof.
  unfold selected. destruct (in_bounds _ _) eqn:E.
  - destruct (in_bounds_nth _ _ E) as [d ->]. split; discriminate.
  - now split.
Qed.

Lemma log_current_row m st : current_row (log m st) = current_row st.
Proof. reflexivity. Qed.

Lemma log_program_data m st : program_data (log m st) = program_data st.
Proof. reflexivity. Qed.

Lemma os_path_exists_log m st p :
  os_path_exists (log m st) p = os_path_exists st p.
Proof. reflexivity. Qed.

(** [launch_program] once the guard has let the request through. *)
Ltac enter_launch Hb Hn :=
  unfold launch_program; cbv zeta;
  rewrite log_current_row, log_program_data, Hb, Hn; cbn [negb];
  rewrite ?os_path_exists_log.

(** C1 as amended. For every launch request on a selected descriptor: when
    the destination file exists, no download thread is started and the file
    is launched; when it is absent and its directory exists or can be
    created, exactly one download thread is started, bound to the
    descriptor's binary URL and the destination path; when it is absent and
    the directory cannot be created, no thread is started and nothing is
    launched. *)
Theorem launch_program_downloader (e : env) (st : state) (d : descriptor) :
  selected st = Some d ->
  let path := binary_path_of (program d) in
  let st' := fst (launch_program e st) in
  if os_path_exists st path then
    threads st' = threads st
    /\ popen_calls st' = (popen_calls st ++ [path])%list
  else if directory_ready e st path then
    (exists sigs,
        threads st'
        = (threads st ++ [mkThread (binary_url d) path sigs])%list)
    /\ downloader st' = Some (binary_url d, path)
    /\ popen_calls st' = popen_calls st
  else
    threads st' = threads st /\ popen_calls st' = popen_calls st.
Proof.
  intros Hsel path st'. subst st' path.
  destruct (selected_Some _ _ Hsel) as [Hb Hn].
  unfold directory_ready. enter_launch Hb Hn.
  destruct (os_path_exists st (binary_path_of (program d))); cbn [negb].
  - unfold launch_existing_program. destruct (popen_error e); now split.
  - destruct (os_path_exists st (PyStr.dirname _)); cbn [negb orb].
    + split; [eexists; reflexivity|now split].
    + destruct (makedirs_error e).
      * now split.
      * split; [eexists; reflexivity|now split].
Qed.

(** C8. When the file and its directory are absent and [os.makedirs]
    raises, the exception leaves [launch_program]: the log holds the two
    messages written before the call and none about the error, and nothing
    else of the state has changed. *)
Theorem launch_program_makedirs_error (e : env) (st : state) (d : descriptor)
    (err : string) :
  selected st = Some d ->
  os_path_exists st (binary_path_of (program d)) = false ->
  os_path_exists st (PyStr.dirname (binary_path_of (program d))) = false ->
  makedirs_error e = Some err ->
  launch_program e st
  = (log ("Starting download of " ++ program d)
       (log "Launch button pressed" st), Raised err).
Proof.
  intros Hsel Hfile Hdir Herr.
  destruct (selected_Some _ _ Hsel) as [Hb Hn].
  enter_launch Hb Hn. rewrite Hfile, Hdir. cbn [negb]. now rewrite Herr.
Qed.

(** C9 as amended. The destination path is a function of the descriptor's
    name alone: it is [.\bin\], then the name with every space replaced by
    an underscore and every other character kept, then [.exe]; this is the
    path a launch request passes to [Popen] or binds the download thread
    to; for the name [Foo] it is [.\bin\Foo.exe]. *)
Theorem destination_path_from_name (e : env) (st : state) (d : descriptor) :
  selected st = Some d ->
  let path := binary_path_of (program d) in
  let st' := fst (launch_program e st) in
  (exists stem,
      path = ".\bin\" ++ stem ++ ".exe"
      /\ String.length stem = String.length (program d)
      /\ forall i,
           String.get i stem
           = option_map
               (fun c => if Ascii.eqb c " "%char then "_"%char else c)
               (String.get i (program d)))
  /\ (forall d', program d' = program d -> binary_path_of (program d') = path)
  /\ (forall p, In p (popen_calls st') -> In p (popen_calls st) \/ p = path)
  /\ (forall t, In t (threads st') ->
        In t (threads st) \/ thread_filename t = path)
  /\ binary_path_of "Foo" = ".\bin\Foo.exe".
Proof.
  intros Hsel path st'.
  split.
  { exists (PyStr.replace_space (program d)). split; [reflexivity|].
    split; [apply replace_space_length|]. intros i. apply replace_space_get. }
  split; [intros d' Hd'; subst path; now rewrite Hd'|].
  assert (Hp : forall p, In p [path] -> p = path)
    by (intros p [<-|[]]; reflexivity).
  destruct (selected_Some _ _ Hsel) as [Hb Hn].
  subst st'. enter_launch Hb Hn. fold path.
  destruct (os_path_exists st path); cbn [negb].
  - unfold launch_existing_program.
    destruct (popen_error e); cbn [fst]; repeat split; auto;
      intros p Hin; apply in_app_or in Hin as [Hin|Hin]; auto.
  - destruct (os_path_exists st (PyStr.dirname path)); cbn [negb].
    + repeat split; auto.
      intros t Hin. apply in_app_or in Hin as [Hin|[<-|[]]]; auto.
    + destruct (makedirs_error e).
      * repeat split; auto.
      * repeat split; auto.
        intros t Hin. apply in_app_or in Hin as [Hin|[<-|[]]]; auto.
Qed.


(** ** Search: what a query leaves alone *)

Section SearchFrame.

Variable default_process : string -> string.
Variable WRatio : string -> string -> Q.

Local Abbreviation search := (filter_programs default_process WRatio).
Local Abbreviation turn := (handle default_process WRatio).
Local Abbreviation run_events := (exec default_process WRatio).
Local Abbreviation reached := (reachable default_process WRatio).

(** A query replaces the active view and the list widget and nothing
    else. *)
Lemma filter_programs_frame (text : string) (st : state) :
  let st' := search text st in
  original_program_data st' = original_program_data st
  /\ search_choices st' = search_choices st
  /\ launch_button_enabled st' = launch_button_enabled st
  /\ downloader st' = downloader st
  /\ log_lines st' = log_lines st
  /\ existing st' = existing st
  /\ threads st' = threads st
  /\ popen_calls st' = popen_calls st.
Proof.
  unfold filter_programs.
  destruct (negb _); [now repeat split|].
  destruct (collect _ _ _); now repeat split.
Qed.

(** C3. A query that is empty or holds only whitespace makes the active
    view the original catalog again: same entries, same order, same
    length; the original catalog itself is left as it was. *)
Theorem filter_programs_blank_resets (search_text : string) (st : state) :
  PyStr.whitespace_only search_text ->
  let st' := search search_text st in
  program_data st' = original_program_data st
  /\ length (program_data st') = length (original_program_data st)
  /\ original_program_data st' = original_program_data st
  /\ program_list st' = map program (original_program_data st).
Proof.
  intros Hws. unfold filter_programs.
  rewrite (strip_whitespace_only _ Hws). simpl. now repeat split.
Qed.

(** ** One download at a time *)

Lemma single_download_init data font_loaded paths :
  single_download (init data font_loaded paths).
Proof.
  unfold single_download, init, load_custom_font.
  destruct font_loaded; simpl; split; auto.
Qed.

Lemma launch_program_single (e : env) (st : state) :
  threads st = [] ->
  single_download (fst (launch_program e st)).
Proof.
  intros Hts. unfold single_download.
  destruct (selected st) as [d|] eqn:Hsel.
  - destruct (selected_Some _ _ Hsel) as [Hb Hn]. enter_launch Hb Hn.
    destruct (os_path_exists st (binary_path_of (program d))); cbn [negb].
    + unfold launch_existing_program.
      destruct (popen_error e); simpl; rewrite Hts; simpl; split; auto.
    + destruct (os_path_exists st (PyStr.dirname _)); cbn [negb].
      * simpl. rewrite Hts. simpl. split; [lia|discriminate].
      * destruct (makedirs_error e); simpl; rewrite Hts; simpl.
        -- split; auto.
        -- split; [lia|discriminate].
  - apply selected_None in Hsel. unfold launch_program. cbv zeta.
    rewrite log_current_row, log_program_data, Hsel. simpl.
    rewrite Hts. simpl. split; auto.
Qed.

Lemma on_signal_frame (s : signal) (e : env) (st : state) :
  s <> finished ->
  threads (on_signal s e st) = threads st
  /\ launch_button_enabled (on_signal s e st) = launch_button_enabled st.
Proof.
  intros Hs. destruct s; try (now split); try (now elim Hs).
  unfold on_signal, download_succeeded. cbv zeta.
  rewrite log_current_row, log_program_data.
  destruct (in_bounds _ _); [|now split].
  destruct (nth_error _ _); [|now split].
  unfold launch_existing_program. destruct (popen_error e); now split.
Qed.

Lemma download_finished_frame (st : state) :
  threads (download_finished st) = threads st
  /\ launch_button_enabled (download_finished st) = true.
Proof.
  unfold download_finished. cbv zeta. simpl. destruct (downloader st); now split.
Qed.

Lemma pop_signal_single (i : nat) (t : thread) (s : signal)
    (ts : list thread) :
  pop_signal i [t] = Some (s, ts) ->
  (s = finished /\ ts = []) \/ (s <> finished /\ length ts = 1).
Proof.
  destruct i as [|i]; simpl; [|destruct i; discriminate].
  destruct (pending t) as [|s0 rest]; [discriminate|].
  destruct s0; intros H; injection H as <- <-;
    solve [left; now split | right; split; [discriminate|reflexivity]].
Qed.

Lemma handle_single_download (ev : event) (st st' : state) :
  single_download st -> turn ev st = Some st' -> single_download st'.
Proof.
  intros [Hlen Hen] H. destruct ev as [text|row|e|i e|paths]; simpl in H.
  - injection H as <-.
    destruct (filter_programs_frame text st) as (_ & _ & Hb & _ & _ & _ & Ht & _).
    unfold single_download. rewrite Ht, Hb. now split.
  - destruct (_ && _)%bool; [|discriminate]. injection H as <-. now split.
  - destruct (launch_button_enabled st) eqn:Hb; [|discriminate].
    injection H as <-. apply launch_program_single. now apply Hen.
  - destruct (pop_signal i (threads st)) as [[s ts]|] eqn:Hpop; [|discriminate].
    injection H as <-.
    destruct (threads st) as [|t [|t' rest]] eqn:Hts; simpl in Hlen;
      [destruct i; discriminate| |lia].
    assert (Hoff : launch_button_enabled st = false).
    { destruct (launch_button_enabled st); [|reflexivity].
      now specialize (Hen eq_refl). }
    destruct (pop_signal_single _ _ _ _ Hpop) as [[-> ->]|[Hs Hl]].
    + unfold single_download. simpl.
      destruct (download_finished_frame (set_threads [] st)) as [-> _].
      simpl. split; auto.
    + unfold single_download.
      destruct (on_signal_frame s e (set_threads ts st) Hs) as [-> ->].
      simpl. rewrite Hl, Hoff. split; [lia|discriminate].
  - injection H as <-. now split.
Qed.

Lemma exec_single_download (evs : list event) :
  forall st st',
    single_download st -> run_events evs st = Some st' -> single_download st'.
Proof.
  induction evs as [|ev evs IH]; intros st st' Hinv H; simpl in H.
  - now injection H as <-.
  - destruct (turn ev st) as [st1|] eqn:E; [|discriminate].
    apply (IH st1); [|exact H]. now apply (handle_single_download ev st).
Qed.

(** C7 as amended. In every state a run of the application reaches, at most
    one download thread is in flight; while one is, the launch button is
    disabled and delivers no launch request, so no handler runs and nothing
    is logged. *)
Theorem one_download_in_flight (st : state) :
  reached st ->
  length (threads st) <= 1
  /\ (threads st <> [] -> forall e, turn (LaunchClicked e) st = None).
Proof.
  intros (data & font_loaded & paths & evs & Hexec).
  assert (Hinv : single_download st).
  { apply (exec_single_download evs _ _ (single_download_init _ _ _) Hexec). }
  destruct Hinv as [Hlen Hen]. split; [exact Hlen|].
  intros Hne e. simpl.
  destruct (launch_button_enabled st); [|reflexivity].
  now elim Hne; apply Hen.
Qed.

End SearchFrame.

(** ** Two entries with one search text *)

Lemma Qle_bool_refl (q : Q) : Qle_bool q q = true.
Proof. apply Qle_bool_iff, Qle_refl. Qed.

Section SameText.

Variable default_process : string -> string.
Variable WRatio : string -> string -> Q.

Local Abbreviation search := (filter_programs default_process WRatio).
Local Abbreviation score := (score_of default_process WRatio).

(** The catalog [[tool; tool2]] under the query [Tool]: both results carry
    the text [Tool 2 beta x], [choice_texts.index] answers 0 for both, and
    the first entry is appended once per result. *)
Lemma same_text_result (font_loaded : bool) (paths : list string) :
  program_data
    (search "Tool"
       (init (JList [Sample.tool; Sample.tool2]) font_loaded paths))
  = if Qle_bool 60%Q (score "Tool" "Tool 2 beta x")
    then [Sample.tool; Sample.tool] else [].
Proof.
  unfold filter_programs.
  change (PyStr.strip "Tool") with "Tool".
  cbv iota beta delta [PyStr.truthy negb].
  replace (search_choices
             (init (JList [Sample.tool; Sample.tool2]) font_loaded paths))
    with [("Tool 2 beta x", Sample.tool); ("Tool 2 beta x", Sample.tool2)]
    by (destruct font_loaded; reflexivity).
  cbv zeta. unfold extract.
  cbn [map fst length score_all sort_desc fold_right insert_desc sc_score snd].
  rewrite Qle_bool_refl.
  cbn [firstn collect PyStr.index sc_text fst String.eqb Ascii.eqb Bool.eqb
       option_map nth_error sc_score snd].
  destruct (Qle_bool 60 _); destruct font_loaded; reflexivity.
Qed.

(** C2. On the catalog [[tool; tool2]], whose two entries have different
    names and the same search text, the query [Tool] never returns
    [tool2], whatever the scorer: when the common score is at least 60 the
    result is [tool] twice, otherwise it is empty. *)
Theorem filter_programs_same_text_drops_entry (font_loaded : bool)
    (paths : list string) :
  let st := init (JList [Sample.tool; Sample.tool2]) font_loaded paths in
  let st' := search "Tool" st in
  combined_text Sample.tool2 = combined_text Sample.tool
  /\ In Sample.tool2 (original_program_data st)
  /\ ~ In Sample.tool2 (program_data st')
  /\ program_data st'
     = if Qle_bool 60%Q (score "Tool" (combined_text Sample.tool2))
       then [Sample.tool; Sample.tool] else [].
Proof.
  intros st st'. subst st st'. rewrite same_text_result.
  change (combined_text Sample.tool2) with "Tool 2 beta x".
  split; [reflexivity|]. split.
  { destruct font_loaded; simpl; auto. }
  split; [|reflexivity].
  destruct (Qle_bool 60 _); simpl; [|tauto].
  intros [H|[H|[]]]; discriminate H.
Qed.

(** C5. On the same catalog and query, when the common score is at least
    60 the active view holds [tool] twice although the original catalog
    holds it once. *)
Theorem filter_programs_same_text_repeats_entry (font_loaded : bool)
    (paths : list string) :
  let st := init (JList [Sample.tool; Sample.tool2]) font_loaded paths in
  let st' := search "Tool" st in
  original_program_data st' = [Sample.tool; Sample.tool2]
  /\ count_occ descriptor_eq_dec (original_program_data st') Sample.tool = 1
  /\ count_occ descriptor_eq_dec (program_data st') Sample.tool
     = if Qle_bool 60%Q (score "Tool" (combined_text Sample.tool))
       then 2 else 0.
Proof.
  intros st st'. subst st st'. rewrite same_text_result.
  destruct (filter_programs_frame default_process WRatio "Tool"
              (init (JList [Sample.tool; Sample.tool2]) font_loaded paths))
    as [-> _].
  change (combined_text Sample.tool) with "Tool 2 beta x".
  split; [now destruct font_loaded|].
  split; [now destruct font_loaded|].
  now destruct (Qle_bool 60 _).
Qed.

(** C4. On the catalog [[tool; tool3; tool2]], where the first and the
    last entry have the same search text, when all three entries tie at a
    score of at least 60 the result is [[tool; tool3; tool]]: [tool3] comes
    before the second [tool], although [tool] is before [tool3] in the
    original and [tool2], which follows [tool3] there, is not shown. *)
Theorem filter_programs_same_text_breaks_ties (font_loaded : bool)
    (paths : list string) :
  (score "Tool" "Tool 3 beta x" == score "Tool" "Tool 2 beta x")%Q ->
  (60 <= score "Tool" "Tool 2 beta x")%Q ->
  program_data
    (search "Tool"
       (init (JList [Sample.tool; Sample.tool3; Sample.tool2])
          font_loaded paths))
  = [Sample.tool; Sample.tool3; Sample.tool].
Proof.
  intros Htie Hkeep.
  assert (H23 : Qle_bool (score "Tool" "Tool 2 beta x")
                  (score "Tool" "Tool 3 beta x") = true).
  { apply Qle_bool_iff. rewrite Htie. apply Qle_refl. }
  assert (H32 : Qle_bool (score "Tool" "Tool 3 beta x")
                  (score "Tool" "Tool 2 beta x") = true).
  { apply Qle_bool_iff. rewrite Htie. apply Qle_refl. }
  assert (H2 : Qle_bool 60 (score "Tool" "Tool 2 beta x") = true)
    by now apply Qle_bool_iff.
  assert (H3 : Qle_bool 60 (score "Tool" "Tool 3 beta x") = true).
  { apply Qle_bool_iff. now rewrite Htie. }
  unfold filter_programs.
  change (PyStr.strip "Tool") with "Tool".
  cbv iota beta delta [PyStr.truthy negb].
  replace (search_choices
             (init (JList [Sample.tool; Sample.tool3; Sample.tool2])
                font_loaded paths))
    with [("Tool 2 beta x", Sample.tool); ("Tool 3 beta x", Sample.tool3);
          ("Tool 2 beta x", Sample.tool2)]
    by (destruct font_loaded; reflexivity).
  cbv zeta. unfold extract.
  cbn [map fst length score_all sort_desc fold_right insert_desc sc_score snd].
  rewrite H23. cbn [insert_desc sc_score snd fst]. rewrite H32.
  cbn [firstn collect PyStr.index sc_text fst String.eqb Ascii.eqb Bool.eqb
       option_map nth_error sc_score snd].
  rewrite H2, H3. destruct font_loaded; reflexivity.
Qed.

End SameText.

(** ** Search: what holds on every catalog *)

Lemma build_search_choices_texts (catalog : list descriptor) :
  map fst (build_search_choices catalog) = map combined_text catalog.
Proof.
  unfold build_search_choices. rewrite map_map. reflexivity.
Qed.

(** [choice_texts.index(text)] and the subscript that follows reach the
    first entry with that text. *)
Lemma index_first_with_text (catalog : list descriptor) (text : string) :
  In text (map combined_text catalog) ->
  exists i d,
    PyStr.index text (map combined_text catalog) = Some i
    /\ nth_error (build_search_choices catalog) i = Some (text, d)
    /\ first_with_text catalog text = Some d.
Proof.
  induction catalog as [|d0 catalog IH]; intros Hin; [destruct Hin|].
  unfold first_with_text. simpl.
  destruct (String.eqb (combined_text d0) text) eqn:E.
  - apply String.eqb_eq in E. exists 0, d0. simpl. rewrite E. now repeat split.
  - destruct Hin as [Hin|Hin].
    + apply String.eqb_neq in E. now elim E.
    + destruct (IH Hin) as (i & d & Hi & Hn & Hf).
      exists (S i), d. rewrite Hi. now repeat split.
Qed.

Lemma first_with_text_Some (catalog : list descriptor) (text : string)
    (d : descriptor) :
  first_with_text catalog text = Some d ->
  In d catalog /\ combined_text d = text.
Proof.
  unfold first_with_text. intros H. apply find_some in H as [Hin Heq].
  split; [exact Hin|now apply String.eqb_eq].
Qed.

(** The loop of [filter_programs] does not raise on results whose texts
    are search texts of the catalog; it keeps the results scoring at least
    60 and appends, for each, the first entry with the result's text. *)
Lemma collect_first_with_text (catalog : list descriptor)
    (results : list scored) :
  Forall (fun r => In (sc_text r) (map combined_text catalog)) results ->
  exists l,
    collect results (map combined_text catalog)
      (build_search_choices catalog) = Some l
    /\ Forall2 (fun r d => first_with_text catalog (sc_text r) = Some d)
         (filter (fun r => Qle_bool 60%Q (sc_score r)) results) l.
Proof.
  induction 1 as [|r results Hr _ (l & Hl & HF)]; simpl.
  - exists []. split; [reflexivity|constructor].
  - destruct (index_first_with_text _ _ Hr) as (i & d & -> & -> & Hf).
    rewrite Hl. destruct (Qle_bool 60 (sc_score r)).
    + exists (d :: l). split; [reflexivity|now constructor].
    + now exists l.
Qed.

Lemma Forall2_in_right {A B} (R : A -> B -> Prop) (l : list A)
    (l' : list B) :
  Forall2 R l l' -> forall b, In b l' -> exists a, In a l /\ R a b.
Proof.
  induction 1 as [|a b0 l l' Hab _ IH]; intros b Hin; [destruct Hin|].
  destruct Hin as [<-|Hin].
  - exists a. split; [now left|exact Hab].
  - destruct (IH b Hin) as (a' & Ha' & HR). exists a'. split; [now right|exact HR].
Qed.

Lemma Forall2_StronglySorted {A B} (R : A -> B -> Prop)
    (S : A -> A -> Prop) (T : B -> B -> Prop) :
  (forall a b a' b', R a b -> R a' b' -> S a a' -> T b b') ->
  forall l l', Forall2 R l l' -> StronglySorted S l -> StronglySorted T l'.
Proof.
  intros HRST. induction 1 as [|a b l l' Hab HF IH]; intros Hs;
    [constructor|].
  apply StronglySorted_inv in Hs as [Hs Hall]. constructor; [now apply IH|].
  rewrite Forall_forall in *. intros b' Hb'.
  destruct (Forall2_in_right _ _ _ HF b' Hb') as (a' & Ha' & Ha'b').
  exact (HRST _ _ _ _ Hab Ha'b' (Hall a' Ha')).
Qed.

Lemma StronglySorted_filter {A} (S : A -> A -> Prop) (f : A -> bool)
    (l : list A) :
  StronglySorted S l -> StronglySorted S (filter f l).
Proof.
  induction 1 as [|a l _ IH Hall]; simpl; [constructor|].
  destruct (f a); [|exact IH]. constructor; [exact IH|].
  rewrite Forall_forall in *. intros x Hx. apply filter_In in Hx as [Hx _].
  now apply Hall.
Qed.

Section RankingFacts.

Variable default_process : string -> string.
Variable WRatio : string -> string -> Q.

Local Abbreviation score := (score_of default_process WRatio).
Local Abbreviation scores := (score_all default_process WRatio).
Local Abbreviation ranking := (extract default_process WRatio).

Lemma score_all_length query choices i :
  length (scores query choices i) = length choices.
Proof.
  revert i. induction choices as [|c cs IH]; intros i; simpl; [reflexivity|].
  now rewrite IH.
Qed.

(** Each result carries a choice, its score and its position. *)
Lemma score_all_In query choices :
  forall i r,
    In r (scores query choices i) ->
    sc_score r = score query (sc_text r)
    /\ i <= sc_index r
    /\ nth_error choices (sc_index r - i) = Some (sc_text r).
Proof.
  induction choices as [|c cs IH]; intros i r Hin; [destruct Hin|].
  destruct Hin as [<-|Hin].
  - unfold sc_score, sc_index, sc_text. simpl. rewrite Nat.sub_diag.
    now repeat split.
  - destruct (IH _ _ Hin) as (Hs & Hi & Hn). split; [exact Hs|].
    split; [lia|].
    replace (sc_index r - i) with (S (sc_index r - S i)) by lia. exact Hn.
Qed.

Lemma insert_desc_perm (x : scored) (l : list scored) :
  Permutation (insert_desc x l) (x :: l).
Proof.
  induction l as [|y l IH]; simpl; [reflexivity|].
  destruct (Qle_bool _ _); [reflexivity|].
  rewrite IH. apply perm_swap.
Qed.

Lemma sort_desc_perm (l : list scored) : Permutation (sort_desc l) l.
Proof.
  induction l as [|x l IH]; simpl; [reflexivity|].
  rewrite insert_desc_perm. now constructor.
Qed.

Lemma ranked_before_le (a b : scored) :
  ranked_before a b -> (sc_score b <= sc_score a)%Q.
Proof.
  intros [H|[H _]]; [now apply Qlt_le_weak|]. rewrite H. apply Qle_refl.
Qed.

(** A result whose index is below those of a ranked list is inserted in
    its place. *)
Lemma insert_desc_ranked (x : scored) (l : list scored) :
  StronglySorted ranked_before l ->
  Forall (fun y => sc_index x < sc_index y) l ->
  StronglySorted ranked_before (insert_desc x l).
Proof.
  induction 1 as [|y l Hs IH Hall]; intros Hidx; simpl.
  - repeat constructor.
  - apply Forall_cons_iff in Hidx as [Hy Hidx].
    destruct (Qle_bool (sc_score y) (sc_score x)) eqn:E.
    + apply Qle_bool_iff in E.
      assert (Hxy : ranked_before x y).
      { apply Qle_lteq in E as [E|E]; [now left|].
        right. split; [now symmetry|exact Hy]. }
      constructor; [now constructor|]. constructor; [exact Hxy|].
      rewrite Forall_forall in *. intros z Hz.
      pose proof (ranked_before_le _ _ (Hall z Hz)) as Hzy.
      assert (Hzx : (sc_score z <= sc_score x)%Q)
        by (eapply Qle_trans; eassumption).
      apply Qle_lteq in Hzx as [Hzx|Hzx]; [now left|].
      right. split; [now symmetry|now apply Hidx].
    + assert (Hlt : (sc_score x < sc_score y)%Q).
      { apply Qnot_le_lt. intros Hle. apply Qle_bool_iff in Hle. congruence. }
      constructor; [now apply IH|].
      rewrite Forall_forall in *. intros z Hz.
      apply (Permutation_in _ (insert_desc_perm x l)) in Hz.
      destruct Hz as [<-|Hz]; [now left|now apply Hall].
Qed.

(** Scoring and sorting: the results are a rearrangement of the scored
    choices, ranked by descending score and, among equal scores, by
    ascending index. *)
Lemma sort_desc_ranked query choices :
  forall i, StronglySorted ranked_before (sort_desc (scores query choices i)).
Proof.
  induction choices as [|c cs IH]; intros i; simpl; [constructor|].
  apply insert_desc_ranked; [apply IH|].
  rewrite Forall_forall. intros y Hy.
  apply (Permutation_in _ (sort_desc_perm _)) in Hy.
  destruct (score_all_In _ _ _ _ Hy) as (_ & Hi & _).
  unfold sc_index at 1. simpl. lia.
Qed.

(** With [limit=len(choices)] nothing is cut off. *)
Lemma extract_all query choices :
  ranking query choices (length choices) = sort_desc (scores query choices 0).
Proof.
  unfold extract. apply firstn_all2.
  rewrite (Permutation_length (sort_desc_perm _)), score_all_length. lia.
Qed.

Lemma extract_In query choices r :
  In r (ranking query choices (length choices)) ->
  In (sc_text r) choices /\ sc_score r = score query (sc_text r).
Proof.
  rewrite extract_all. intros Hin.
  apply (Permutation_in _ (sort_desc_perm _)) in Hin.
  destruct (score_all_In _ _ _ _ Hin) as (Hs & _ & Hn).
  split; [now apply nth_error_In in Hn|exact Hs].
Qed.

End RankingFacts.

Lemma Permutation_filter {A} (f : A -> bool) (l l' : list A) :
  Permutation l l' -> Permutation (filter f l) (filter f l').
Proof.
  induction 1 as [|x l l' _ IH|x y l|l l' l'' _ IH1 _ IH2]; simpl.
  - constructor.
  - destruct (f x); [now constructor|exact IH].
  - destruct (f x), (f y); try reflexivity. apply perm_swap.
  - now transitivity (filter f l').
Qed.

Lemma Forall2_impl_in {A B} (R R' : A -> B -> Prop) (l : list A)
    (l' : list B) :
  Forall2 R l l' ->
  (forall a b, In a l -> R a b -> R' a b) ->
  Forall2 R' l l'.
Proof.
  induction 1 as [|a b l l' Hab _ IH]; intros Himp; constructor.
  - apply Himp; [now left|exact Hab].
  - apply IH. intros a' b' Ha'. apply Himp. now right.
Qed.

Lemma Forall2_map_Some {A B} (g : A -> option B) (l : list A)
    (l' : list B) :
  Forall2 (fun a b => g a = Some b) l l' -> map g l = map Some l'.
Proof.
  induction 1 as [|a b l l' Hab _ IH]; simpl; [reflexivity|].
  now rewrite Hab, IH.
Qed.

Lemma map_Some_inj {B} (l l' : list B) :
  map Some l = map Some l' -> l = l'.
Proof.
  revert l'. induction l as [|b l IH]; intros [|b' l'] H; simpl in H;
    try discriminate; [reflexivity|].
  injection H as -> H. now rewrite (IH _ H).
Qed.

(** When no two entries share a search text, the first entry with the
    text at position [i] is the entry at position [i]. *)
Lemma first_with_text_nth (catalog : list descriptor) :
  NoDup (map combined_text catalog) ->
  forall i text,
    nth_error (map combined_text catalog) i = Some text ->
    first_with_text catalog text = nth_error catalog i.
Proof.
  unfold first_with_text.
  induction catalog as [|d0 catalog IH]; intros Hnd i text Hn.
  - now destruct i.
  - simpl in Hnd. apply NoDup_cons_iff in Hnd as [Hout Hnd].
    destruct i as [|i]; simpl in *.
    + injection Hn as <-. now rewrite String.eqb_refl.
    + destruct (String.eqb (combined_text d0) text) eqn:E.
      * apply String.eqb_eq in E. apply nth_error_In in Hn. now subst.
      * now apply IH.
Qed.

Section SearchFacts.

Variable default_process : string -> string.
Variable WRatio : string -> string -> Q.

Local Abbreviation search := (filter_programs default_process WRatio).
Local Abbreviation score := (score_of default_process WRatio).
Local Abbreviation scores := (score_all default_process WRatio).
Local Abbreviation ranking := (extract default_process WRatio).
Local Abbreviation kept := (keeps default_process WRatio).
Local Abbreviation in_catalog_order :=
  (catalog_order default_process WRatio).

(** A query that is not blank: the view holds, for each result scoring at
    least 60 and in the order of the ranking, the first entry of the
    catalog with the result's text. *)
Lemma filter_programs_ranked (query : string) (st : state) :
  loaded st ->
  PyStr.truthy (PyStr.strip query) = true ->
  let catalog := original_program_data st in
  let texts := map combined_text catalog in
  Forall2 (fun r d => first_with_text catalog (sc_text r) = Some d)
    (filter (fun r => Qle_bool 60%Q (sc_score r))
       (ranking query texts (length texts)))
    (program_data (search query st)).
Proof.
  intros Hload Hq catalog texts. unfold filter_programs. rewrite Hq.
  cbv zeta. cbn [negb]. rewrite Hload, build_search_choices_texts.
  subst texts catalog.
  destruct (collect_first_with_text (original_program_data st)
              (ranking query (map combined_text (original_program_data st))
                 (length (map combined_text (original_program_data st)))))
    as (l & -> & HF).
  - rewrite Forall_forall. intros r Hr.
    now destruct (extract_In _ _ _ _ _ Hr).
  - exact HF.
Qed.

(** Every entry of the view is an entry of the catalog that scores at
    least 60, and it is the first entry with its search text. *)
Lemma filter_programs_sound (query : string) (st : state) (d : descriptor) :
  loaded st ->
  PyStr.truthy (PyStr.strip query) = true ->
  In d (program_data (search query st)) ->
  In d (original_program_data st)
  /\ kept query d = true
  /\ first_with_text (original_program_data st) (combined_text d) = Some d.
Proof.
  intros Hload Hq Hin.
  pose proof (filter_programs_ranked query st Hload Hq) as HF. simpl in HF.
  destruct (Forall2_in_right _ _ _ HF d Hin) as (r & Hr & Hrd).
  apply filter_In in Hr as [Hr Hkeep].
  destruct (extract_In _ _ _ _ _ Hr) as [_ Hs].
  destruct (first_with_text_Some _ _ _ Hrd) as [Hcat Htext].
  split; [exact Hcat|]. split.
  - unfold keeps. now rewrite Htext, <- Hs.
  - now rewrite Htext.
Qed.

(** When every entry scores below 60 the view is empty. *)
Lemma filter_programs_none_kept (query : string) (st : state) :
  loaded st ->
  PyStr.truthy (PyStr.strip query) = true ->
  (forall d, In d (original_program_data st) -> kept query d = false) ->
  program_data (search query st) = [].
Proof.
  intros Hload Hq Hlow.
  destruct (program_data (search query st)) as [|d l] eqn:E; [reflexivity|].
  destruct (filter_programs_sound query st d Hload Hq) as (Hin & Hk & _).
  - rewrite E. now left.
  - rewrite (Hlow d Hin) in Hk. discriminate.
Qed.

(** The scores of the view never increase from one entry to the next. *)
Lemma filter_programs_descending (query : string) (st : state) :
  loaded st ->
  PyStr.truthy (PyStr.strip query) = true ->
  StronglySorted
    (fun a b =>
       (score query (combined_text b) <= score query (combined_text a))%Q)
    (program_data (search query st)).
Proof.
  intros Hload Hq.
  pose proof (filter_programs_ranked query st Hload Hq) as HF. simpl in HF.
  set (texts := map combined_text (original_program_data st)) in *.
  eapply (Forall2_StronglySorted
            (fun r d => combined_text d = sc_text r
                        /\ sc_score r = score query (sc_text r))
            (ranked_before)).
  - intros a b a' b' [Hab Ha] [Ha'b' Ha'] Hrank.
    apply ranked_before_le in Hrank. now rewrite Hab, Ha'b', <- Ha, <- Ha'.
  - apply (Forall2_impl_in _ _ _ _ HF). intros r d Hr Hrd.
    apply filter_In in Hr as [Hr _].
    destruct (extract_In _ _ _ _ _ Hr) as [_ Hs].
    destruct (first_with_text_Some _ _ _ Hrd) as [_ Ht]. now split.
  - apply StronglySorted_filter. rewrite extract_all. apply sort_desc_ranked.
Qed.

(** An entry that is not the first one with its search text is never
    shown, whatever it scores. *)
Lemma filter_programs_shadowed (query : string) (st : state)
    (d : descriptor) :
  loaded st ->
  PyStr.truthy (PyStr.strip query) = true ->
  first_with_text (original_program_data st) (combined_text d) <> Some d ->
  ~ In d (program_data (search query st)).
Proof.
  intros Hload Hq Hfirst Hin.
  now destruct (filter_programs_sound query st d Hload Hq Hin) as (_ & _ & H).
Qed.

Lemma scores_catalog (query : string) (catalog : list descriptor) :
  forall pre,
    map (fun r => nth_error (pre ++ catalog) (sc_index r))
      (filter (fun r => Qle_bool 60%Q (sc_score r))
         (scores query (map combined_text catalog) (length pre)))
    = map Some (filter (kept query) catalog).
Proof.
  induction catalog as [|d catalog IH]; intros pre; [reflexivity|].
  specialize (IH (pre ++ [d])%list).
  rewrite <- app_assoc, length_app, Nat.add_1_r in IH. cbn [app] in IH.
  cbn [map score_all filter].
  change (Qle_bool 60 (sc_score (combined_text d,
                                 score query (combined_text d), length pre)))
    with (kept query d).
  destruct (kept query d); cbn [map]; [|exact IH].
  f_equal; [|exact IH].
  unfold sc_index. cbn [snd]. now rewrite nth_error_app2, Nat.sub_diag by lia.
Qed.

(** On a catalog whose search texts are pairwise different, the view of a
    query that is not blank holds exactly the entries scoring at least 60,
    each as often as the catalog does, by descending score and, among
    equal scores, in the order of the catalog. *)
Lemma filter_programs_distinct_texts (query : string) (st : state) :
  loaded st ->
  PyStr.truthy (PyStr.strip query) = true ->
  NoDup (map combined_text (original_program_data st)) ->
  Permutation (program_data (search query st))
    (filter (kept query) (original_program_data st))
  /\ StronglySorted (in_catalog_order (original_program_data st) query)
       (program_data (search query st)).
Proof.
  intros Hload Hq Hnd.
  pose proof (filter_programs_ranked query st Hload Hq) as HF. simpl in HF.
  set (catalog := original_program_data st) in *.
  set (texts := map combined_text catalog) in *.
  assert (HF' : Forall2
                  (fun r d => nth_error catalog (sc_index r) = Some d
                              /\ sc_score r = score query (combined_text d))
                  (filter (fun r => Qle_bool 60%Q (sc_score r))
                     (ranking query texts (length texts)))
                  (program_data (search query st))).
  { apply (Forall2_impl_in _ _ _ _ HF). intros r d Hr Hrd.
    apply filter_In in Hr as [Hr _].
    destruct (first_with_text_Some _ _ _ Hrd) as [_ Ht].
    rewrite extract_all in Hr.
    apply (Permutation_in _ (sort_desc_perm _)) in Hr.
    destruct (score_all_In _ _ _ _ _ _ Hr) as (Hs & _ & Hn).
    rewrite Nat.sub_0_r in Hn.
    rewrite (first_with_text_nth catalog Hnd _ _ Hn) in Hrd.
    split; [exact Hrd|now rewrite Ht]. }
  split.
  - assert (Hmap : map (fun r => nth_error catalog (sc_index r))
                     (filter (fun r => Qle_bool 60%Q (sc_score r))
                        (ranking query texts (length texts)))
                   = map Some (program_data (search query st))).
    { apply Forall2_map_Some. apply (Forall2_impl_in _ _ _ _ HF').
      now intros r d _ [H _]. }
    assert (Hperm : Permutation (map Some (program_data (search query st)))
                      (map Some (filter (kept query) catalog))).
    { rewrite <- Hmap, <- (scores_catalog query catalog []).
      apply Permutation_map, Permutation_filter.
      rewrite extract_all. apply sort_desc_perm. }
    apply Permutation_map_inv in Hperm as (l3 & Heq & Hperm).
    apply map_Some_inj in Heq. rewrite Heq. now symmetry.
  - eapply (Forall2_StronglySorted _ ranked_before _ _ _ _ HF').
    apply StronglySorted_filter. rewrite extract_all. apply sort_desc_ranked.
    Unshelve.
    intros a b a' b' [Hab Ha] [Ha'b' Ha'] [Hlt|[Heq Hidx]].
    + left. now rewrite <- Ha, <- Ha'.
    + right. split; [now rewrite <- Ha, <- Ha'|].
      now exists (sc_index a), (sc_index a').
Qed.

End SearchFacts.

(** ** What every reachable state keeps *)

Lemma launch_program_catalog (e : env) (st : state) :
  let st' := fst (launch_program e st) in
  program_data st' = program_data st
  /\ original_program_data st' = original_program_data st
  /\ search_choices st' = search_choices st
  /\ program_list st' = program_list st.
Proof.
  destruct (selected st) as [d|] eqn:Hsel.
  - destruct (selected_Some _ _ Hsel) as [Hb Hn]. enter_launch Hb Hn.
    destruct (os_path_exists st (binary_path_of (program d))); cbn [negb].
    + unfold launch_existing_program. destruct (popen_error e); now repeat split.
    + destruct (os_path_exists st (PyStr.dirname _)); cbn [negb].
      * now repeat split.
      * destruct (makedirs_error e); now repeat split.
  - apply selected_None in Hsel. unfold launch_program. cbv zeta.
    rewrite log_current_row, log_program_data, Hsel. now repeat split.
Qed.

Lemma on_signal_catalog (s : signal) (e : env) (st : state) :
  let st' := on_signal s e st in
  program_data st' = program_data st
  /\ original_program_data st' = original_program_data st
  /\ search_choices st' = search_choices st
  /\ program_list st' = program_list st.
Proof.
  destruct s; try (now repeat split).
  - unfold on_signal, download_succeeded. cbv zeta.
    rewrite log_current_row, log_program_data.
    destruct (in_bounds _ _); [|now repeat split].
    destruct (nth_error _ _); [|now repeat split].
    unfold launch_existing_program. destruct (popen_error e); now repeat split.
  - unfold on_signal, download_finished. cbv zeta.
    destruct (downloader _); now repeat split.
Qed.

Section Reachable.

Variable default_process : string -> string.
Variable WRatio : string -> string -> Q.

Local Abbreviation search := (filter_programs default_process WRatio).
Local Abbreviation turn := (handle default_process WRatio).
Local Abbreviation run_events := (exec default_process WRatio).

Lemma init_consistent data font_loaded paths :
  consistent data (init data font_loaded paths).
Proof.
  unfold consistent, loaded, init, load_custom_font.
  destruct font_loaded; simpl; repeat split; try reflexivity;
    apply incl_refl.
Qed.

Lemma filter_programs_consistent data (text : string) (st : state) :
  consistent data st -> consistent data (search text st).
Proof.
  intros (Horig & Hload & Hincl & Hlist).
  destruct (filter_programs_frame default_process WRatio text st)
    as (Ho & Hs & _).
  assert (Hload' : loaded (search text st))
    by (unfold loaded; now rewrite Ho, Hs).
  unfold consistent. rewrite Ho. split; [exact Horig|].
  split; [exact Hload'|].
  destruct (PyStr.truthy (PyStr.strip text)) eqn:Hq.
  - split.
    + intros d Hd.
      now destruct (filter_programs_sound _ _ text st d Hload Hq Hd).
    + unfold filter_programs. rewrite Hq. cbv zeta. cbn [negb].
      now destruct (collect _ _ _).
  - unfold filter_programs. rewrite Hq. simpl.
    split; [apply incl_refl|reflexivity].
Qed.

Lemma handle_consistent data (ev : event) (st st' : state) :
  consistent data st -> turn ev st = Some st' -> consistent data st'.
Proof.
  intros Hc H. destruct ev as [text|row|e|i e|paths]; simpl in H.
  - injection H as <-. now apply filter_programs_consistent.
  - destruct (_ && _)%bool; [|discriminate]. now injection H as <-.
  - destruct (launch_button_enabled st); [|discriminate]. injection H as <-.
    destruct (launch_program_catalog e st) as (Hp & Ho & Hs & Hl).
    destruct Hc as (Horig & Hload & Hincl & Hlist).
    unfold consistent, loaded. now rewrite Hp, Ho, Hs, Hl.
  - destruct (pop_signal i (threads st)) as [[s ts]|]; [|discriminate].
    injection H as <-.
    destruct (on_signal_catalog s e (set_threads ts st)) as (Hp & Ho & Hs & Hl).
    destruct Hc as (Horig & Hload & Hincl & Hlist).
    unfold consistent, loaded. now rewrite Hp, Ho, Hs, Hl.
  - now injection H as <-.
Qed.

(** After the load and any number of queries, selections, launches and
    signals, the original catalog is still the fetched one and every entry
    shown is one of its entries. *)
Lemma exec_consistent data (evs : list event) :
  forall st st',
    consistent data st -> run_events evs st = Some st' -> consistent data st'.
Proof.
  induction evs as [|ev evs IH]; intros st st' Hc H; simpl in H.
  - now injection H as <-.
  - destruct (turn ev st) as [st1|] eqn:E; [|discriminate].
    apply (IH st1); [|exact H]. now apply (handle_consistent data ev st).
Qed.

End Reachable.

(** ** The theorems at concrete inputs *)

(** A body of [k] equal chunks that are all written: the count reached
    after the last one is sent as a progress value. *)
Lemma iter_content_repeat (chunk : list Byte.byte) (k : nat) :
  chunk <> [] ->
  forall d end_error,
    In (Downloader.Emit
          (setCurrentProgress
             (to_int32 (d + Z.of_nat (S k) * Z.of_nat (length chunk)))))
       (fst (Downloader.iter_content d (repeat (chunk, None) (S k))
               end_error)).
Proof.
  intros Hne. induction k as [|k IH]; intros d ee.
  - cbn [repeat Downloader.iter_content].
    destruct chunk as [|b chunk]; [now elim Hne|].
    right. left.
    replace (Z.of_nat 1 * Z.of_nat (length (b :: chunk)))%Z
      with (Z.of_nat (length (b :: chunk))) by lia.
    reflexivity.
  - change (repeat (chunk, @None string) (S (S k)))
      with ((chunk, @None string) :: repeat (chunk, None) (S k)).
    cbn [Downloader.iter_content].
    destruct chunk as [|b chunk]; [now elim Hne|].
    specialize (IH (d + Z.of_nat (length (b :: chunk)))%Z ee).
    destruct (Downloader.iter_content _ (repeat (b :: chunk, None) (S k)) ee)
      as [acts exc].
    right. right. cbn [fst] in *.
    replace (d + Z.of_nat (S (S k)) * Z.of_nat (length (b :: chunk)))%Z
      with (d + Z.of_nat (length (b :: chunk))
            + Z.of_nat (S k) * Z.of_nat (length (b :: chunk)))%Z by lia.
    exact IH.
Qed.

(** What the loop sends, [run] sends. *)
Lemma run_sends_what_the_loop_sends (r : Downloader.response) (s : signal)
    (total : Z) :
  Downloader.raise_for_status r = None ->
  Downloader.total_size r = inl total ->
  Downloader.open_error r = None ->
  In (Downloader.Emit s)
     (fst (Downloader.iter_content 0 (Downloader.body r)
             (Downloader.body_error r))) ->
  In (Downloader.Emit s) (Downloader.run (inr r)).
Proof.
  intros Hstatus Htotal Hopen Hin.
  unfold Downloader.run, Downloader.try_body, Downloader.with_open.
  rewrite Hstatus, Htotal, Hopen.
  destruct (Downloader.iter_content 0 _ _) as [acts exc].
  cbn [fst] in Hin.
  destruct (match Downloader.close_error r with
            | Some e => Some e
            | None => exc
            end); apply in_or_app; left; right; exact Hin.
Qed.

(** A download of two gibibytes: after the last chunk 2^31 bytes have been
    written and the progress signal carries -2^31, so not every progress
    signal carries the number of bytes written before it. *)
Lemma progress_wraps_at_two_gib :
  ~ (forall net pre n post,
        Downloader.run net
        = (pre ++ Downloader.Emit (setCurrentProgress n) :: post)%list ->
        n = Downloader.bytes_written pre).
Proof.
  intros H.
  assert (Hin : In (Downloader.Emit (setCurrentProgress (- 2 ^ 31)))
                   (Downloader.run (inr two_gib))).
  { apply (run_sends_what_the_loop_sends two_gib _ 0);
      [reflexivity|reflexivity|reflexivity|].
    assert (Hk : exists k, 2 ^ 18 = S k)
      by (exists (Nat.pred (2 ^ 18)); now rewrite Nat.succ_pred).
    destruct Hk as [k Hk].
    pose proof (iter_content_repeat (repeat Byte.x00 (2 ^ 13)) k) as Hrep.
    rewrite repeat_length, <- Hk in Hrep.
    replace (- 2 ^ 31)%Z
      with (to_int32 (0 + Z.of_nat (2 ^ 18) * Z.of_nat (2 ^ 13)))
      by (rewrite !Nat2Z.inj_pow; reflexivity).
    apply Hrep.
    intros Hnil. apply (f_equal (@length Byte.byte)) in Hnil.
    rewrite repeat_length in Hnil. discriminate Hnil. }
  apply in_split in Hin as (pre & post & Hsplit).
  specialize (H _ _ _ _ Hsplit).
  pose proof (DownloaderFacts.bytes_written_nonneg pre).
  change (2 ^ 31)%Z with 2147483648%Z in H. lia.
Qed.

(** The blank query [  ] on the three-entry catalog. *)
Lemma filter_programs_blank_resets_witness :
  PyStr.whitespace_only "  "
  /\ program_data
       (filter_programs Sample.default_process Sample.WRatio "  "
          (filter_programs Sample.default_process Sample.WRatio "Tool 3"
             (init (JList [Sample.tool; Sample.tool3; Sample.tool2]) true [])))
     = [Sample.tool; Sample.tool3; Sample.tool2].
Proof.
  assert (H : PyStr.whitespace_only "  ") by (repeat constructor).
  split; [exact H|].
  exact (proj1 (filter_programs_blank_resets Sample.default_process
                  Sample.WRatio "  " _ H)).
Defined.

(** A launch of [Foo] with neither the file nor the directory on disk. *)
Lemma launch_program_downloader_witness :
  selected (init (JDict Sample.foo) true []) = Some Sample.foo
  /\ exists sigs,
       threads (fst (launch_program Sample.quiet
                       (init (JDict Sample.foo) true [])))
       = [mkThread "http://x/foo.exe" ".\bin\Foo.exe" sigs].
Proof.
  split; [reflexivity|].
  exact (proj1 (launch_program_downloader Sample.quiet
                  (init (JDict Sample.foo) true []) Sample.foo eq_refl)).
Defined.

(** The file is absent and the directory cannot be created: no thread is
    started, so the absence of the file alone does not start a download. *)
Lemma launch_absent_file_without_download :
  ~ (forall e st d,
        selected st = Some d ->
        os_path_exists st (binary_path_of (program d)) = false ->
        exists sigs,
          threads (fst (launch_program e st))
          = (threads st
             ++ [mkThread (binary_url d) (binary_path_of (program d)) sigs])%list).
Proof.
  intros H.
  destruct (H Sample.no_makedirs (init (JDict Sample.foo) true []) Sample.foo
              eq_refl eq_refl) as [sigs Hs].
  discriminate Hs.
Qed.

(** [os.makedirs] raises during a launch of [Foo]. *)
Lemma launch_program_makedirs_error_witness :
  selected (init (JDict Sample.foo) true []) = Some Sample.foo
  /\ makedirs_error Sample.no_makedirs
     = Some "[WinError 5] Access is denied: '.\\bin'"
  /\ log_lines (fst (launch_program Sample.no_makedirs
                       (init (JDict Sample.foo) true [])))
     = ["Custom font loaded successfully"; "Application started";
        "Launch button pressed"; "Starting download of Foo"]
  /\ snd (launch_program Sample.no_makedirs (init (JDict Sample.foo) true []))
     = Raised "[WinError 5] Access is denied: '.\\bin'".
Proof.
  split; [reflexivity|]. split; [reflexivity|].
  rewrite (launch_program_makedirs_error Sample.no_makedirs
             (init (JDict Sample.foo) true []) Sample.foo _
             eq_refl eq_refl eq_refl eq_refl).
  split; reflexivity.
Defined.

(** The path of [My Tool]. *)
Lemma destination_path_from_name_witness :
  selected (init (JDict Sample.my_tool) true []) = Some Sample.my_tool
  /\ (forall t,
        In t (threads (fst (launch_program Sample.quiet
                              (init (JDict Sample.my_tool) true [])))) ->
        thread_filename t = ".\bin\My_Tool.exe").
Proof.
  split; [reflexivity|].
  intros t Hin.
  destruct (proj1 (proj2 (proj2 (proj2
              (destination_path_from_name Sample.quiet
                 (init (JDict Sample.my_tool) true []) Sample.my_tool
                 eq_refl)))) t Hin) as [[]|H].
  exact H.
Defined.

(** Scenario C of the specification: [Foo] is absent, it is downloaded and
    then started.  [Popen] is called once, with backslashes in the path. *)
Lemma foo_is_launched_with_backslashes :
  option_map popen_calls
    (exec Sample.default_process Sample.WRatio
       [LaunchClicked Sample.quiet; Deliver 0 Sample.quiet;
        Deliver 0 Sample.quiet; Deliver 0 Sample.quiet;
        Deliver 0 Sample.quiet; Deliver 0 Sample.quiet]
       (init (JDict Sample.foo) true []))
  = Some [".\bin\Foo.exe"]
  /\ ".\bin\Foo.exe" <> "./bin/Foo.exe".
Proof. split; [reflexivity|discriminate]. Qed.

(** The state after one click on the launch button. *)
Lemma one_download_in_flight_witness :
  reachable Sample.default_process Sample.WRatio
    (fst (launch_program Sample.quiet
            (init (JList [Sample.foo; Sample.my_tool]) true [])))
  /\ length (threads (fst (launch_program Sample.quiet
                             (init (JList [Sample.foo; Sample.my_tool])
                                true []))))
     <= 1.
Proof.
  assert (H : reachable Sample.default_process Sample.WRatio
                (fst (launch_program Sample.quiet
                        (init (JList [Sample.foo; Sample.my_tool]) true [])))).
  { exists (JList [Sample.foo; Sample.my_tool]), true, [],
      [LaunchClicked Sample.quiet]. reflexivity. }
  split; [exact H|].
  exact (proj1 (one_download_in_flight Sample.default_process Sample.WRatio
                  _ H)).
Defined.

(** While the download of [Foo] is in flight the user selects [My Tool];
    [launch_program], called in that state, starts a second thread. *)
Lemma launch_program_starts_second_download :
  exists st,
    exec Sample.default_process Sample.WRatio
      [LaunchClicked Sample.quiet; RowSelected 1]
      (init (JList [Sample.foo; Sample.my_tool]) true []) = Some st
    /\ length (threads st) = 1
    /\ launch_button_enabled st = false
    /\ length (threads (fst (launch_program Sample.quiet st))) = 2.
Proof. eexists. split; [vm_compute; reflexivity|]. vm_compute. now repeat split. Qed.

(** The stand-in scorer gives 100 to all three entries. *)
Lemma filter_programs_same_text_breaks_ties_witness :
  (score_of Sample.default_process Sample.WRatio
     "Tool" "Tool 3 beta x"
   == score_of Sample.default_process Sample.WRatio
        "Tool" "Tool 2 beta x")%Q
  /\ program_data
       (filter_programs Sample.default_process Sample.WRatio "Tool"
          (init (JList [Sample.tool; Sample.tool3; Sample.tool2]) true []))
     = [Sample.tool; Sample.tool3; Sample.tool].
Proof.
  split; [reflexivity|].
  apply (filter_programs_same_text_breaks_ties Sample.default_process
           Sample.WRatio true []).
  - reflexivity.
  - discriminate.
Defined.
(** ** The download thread: what reaches the file *)

Module TransferFacts.
Import Downloader.

Lemma file_content_app (a b : list action) :
  file_content (a ++ b) = (file_content a ++ file_content b)%list.
Proof.
  induction a as [|[c|s] a IH]; simpl; [reflexivity| |exact IH].
  now rewrite IH, app_assoc.
Qed.

Lemma progress_values_app (a b : list signal) :
  progress_values (a ++ b) = (progress_values a ++ progress_values b)%list.
Proof.
  induction a as [|s a IH]; simpl; [reflexivity|].
  destruct s; simpl; now rewrite IH.
Qed.

Lemma last_nonempty {A} (l : list A) (x d d' : A) :
  last (x :: l) d = last (x :: l) d'.
Proof.
  revert x. induction l as [|y l IH]; intros x; [reflexivity|].
  change (last (y :: l) d = last (y :: l) d'). apply IH.
Qed.

(** The loop writes the chunks in order up to the first failure. *)
Lemma iter_content_file chunks :
  forall d end_error acts exc,
    iter_content d chunks end_error = (acts, exc) ->
    exists rest,
      concat (map fst chunks) = (file_content acts ++ rest)%list
      /\ (exc = None -> rest = []).
Proof.
  induction chunks as [|[chunk werr] chunks IH]; intros d ee acts exc H;
    cbn [iter_content] in H.
  - injection H as <- <-. now exists [].
  - destruct chunk as [|b chunk]; [now apply (IH _ _ _ _ H)|].
    destruct werr as [e|].
    + injection H as <- <-. eexists. split; [reflexivity|discriminate].
    + destruct (iter_content _ chunks ee) as [acts' exc'] eqn:E.
      injection H as <- <-.
      destruct (IH _ _ _ _ E) as (rest & Hr & Hnone).
      exists rest. split; [|exact Hnone].
      cbn [map fst concat file_content]. rewrite Hr.
      now rewrite <- app_assoc.
Qed.

(** The loop counts upwards and reports after each write the count
    reached. *)
Lemma iter_content_counts chunks :
  forall d end_error acts exc,
    iter_content d chunks end_error = (acts, exc) -> counts_up d acts.
Proof.
  unfold counts_up.
  induction chunks as [|[chunk werr] chunks IH]; intros d ee acts exc H;
    cbn [iter_content] in H.
  - injection H as <- <-. exists []. simpl.
    repeat split; [constructor|constructor|lia].
  - destruct chunk as [|b chunk]; [now apply (IH _ _ _ _ H)|].
    destruct werr as [e|].
    + injection H as <- <-. exists []. simpl.
      repeat split; [constructor|constructor|lia].
    + destruct (iter_content _ chunks ee) as [acts' exc'] eqn:E.
      injection H as <- <-.
      change (Z.pos (Pos.of_succ_nat (length chunk)))
        with (Z.of_nat (length (b :: chunk))) in *.
      change (bytes_written (Write (b :: chunk) :: Emit ?s :: acts'))
        with (Z.of_nat (length (b :: chunk)) + bytes_written acts')%Z.
      assert (Hd : (0 < Z.of_nat (length (b :: chunk)))%Z)
        by (cbn [length]; lia).
      remember (Z.of_nat (length (b :: chunk))) as len eqn:El.
      remember (d + len)%Z as d' eqn:Ed'.
      destruct (IH _ _ _ _ E) as (counts & Hv & Hs & Hall & Hlast).
      pose proof (DownloaderFacts.bytes_written_nonneg acts') as Hnn.
      exists (d' :: counts).
      cbn [signals progress_values map].
      split; [now rewrite Hv|]. split.
      { constructor; [exact Hs|].
        eapply Forall_impl; [|exact Hall]. simpl. intros; lia. }
      split.
      { constructor; [lia|].
        eapply Forall_impl; [|exact Hall]. simpl. intros; lia. }
      destruct counts as [|v vs].
      * cbn [last] in *. lia.
      * change (last (d' :: v :: vs) d) with (last (v :: vs) d).
        rewrite (last_nonempty vs v d d'), Hlast. lia.
Qed.

End TransferFacts.

Module RunFacts.
Import Downloader.

Lemma counts_up_nil d : counts_up d [].
Proof.
  exists []. simpl. repeat split; [constructor|constructor|lia].
Qed.

Lemma with_open_file r acts exc :
  with_open r = (acts, exc) ->
  (exists rest,
      concat (map fst (body r)) = (file_content acts ++ rest)%list
      /\ (exc = None -> rest = []))
  /\ counts_up 0 acts.
Proof.
  unfold with_open. destruct (open_error r).
  - intros H; injection H as <- <-.
    split; [eexists; split; [reflexivity|discriminate]|apply counts_up_nil].
  - destruct (iter_content 0 (body r) (body_error r)) as [a x] eqn:E.
    intros H; injection H as <- <-.
    destruct (TransferFacts.iter_content_file _ _ _ _ _ E)
      as (rest & Hr & Hnone).
    split; [|exact (TransferFacts.iter_content_counts _ _ _ _ _ E)].
    exists rest. split; [exact Hr|].
    destruct (close_error r); [discriminate|exact Hnone].
Qed.

(** The trace of the [try] body: what it wrote is the start of the
    response body, all of it when no exception left the body, and the
    progress values count the bytes upwards. *)
Lemma try_body_file net acts exc :
  try_body net = (acts, exc) ->
  (forall r, net = inr r ->
     exists rest,
       concat (map fst (body r)) = (file_content acts ++ rest)%list
       /\ (exc = None -> rest = []))
  /\ (forall e, net = inl e -> acts = [] /\ exc = Some e)
  /\ counts_up 0 acts.
Proof.
  unfold try_body. destruct net as [e|r].
  - intros H; injection H as <- <-.
    split; [discriminate|]. split; [intros e' He'; now injection He' as <-|].
    apply counts_up_nil.
  - destruct (raise_for_status r) as [e|].
    { intros H; injection H as <- <-.
      split; [intros r' Hr'; injection Hr' as <-;
              eexists; split; [reflexivity|discriminate]|].
      split; [discriminate|apply counts_up_nil]. }
    destruct (total_size r) as [total|e].
    + destruct (with_open r) as [a x] eqn:E.
      intros H; injection H as <- <-.
      destruct (with_open_file _ _ _ E) as (Hfile & Hcounts).
      split; [intros r' Hr'; now injection Hr' as <-|].
      split; [discriminate|exact Hcounts].
    + intros H; injection H as <- <-.
      split; [intros r' Hr'; injection Hr' as <-;
              eexists; split; [reflexivity|discriminate]|].
      split; [discriminate|apply counts_up_nil].
Qed.

Lemma run_unfold net :
  exists acts exc term,
    try_body net = (acts, exc)
    /\ run net = (acts ++ [Emit term])%list
    /\ is_terminal term = true
    /\ (term = succeeded <-> exc = None)
    /\ (forall e, term = failed e <-> exc = Some e)
    /\ ~ In succeeded (signals acts)
    /\ (forall e, ~ In (failed e) (signals acts)).
Proof.
  unfold run. destruct (try_body net) as [acts exc] eqn:E.
  exists acts, exc, (match exc with Some e => failed e | None => succeeded end).
  split; [reflexivity|]. split; [now destruct exc|].
  split; [now destruct exc|].
  split; [destruct exc; split; congruence|].
  split; [destruct exc; intros e'; split; congruence|].
  destruct (DownloaderFacts.try_body_trace _ _ _ E)
    as [_ [[-> _]|[_ (n & rest & -> & Hp)]]].
  - split; [|intros e]; intros [].
  - rewrite Forall_forall in Hp. simpl.
    split; [|intros e]; (intros [H|H]; [discriminate|]);
      apply Hp in H; discriminate.
Qed.

(** The signals of a run: some for the progress bar, then one terminal
    signal. *)
Lemma run_signals net :
  exists quiet term,
    signals (run net) = (quiet ++ [term])%list
    /\ Forall (fun s => is_total s = true \/ is_progress s = true) quiet
    /\ (term = succeeded \/ exists e, term = failed e).
Proof.
  destruct (run_unfold net) as (acts & exc & term & E & -> & Hterm & _).
  exists (signals acts), term. rewrite DownloaderFacts.signals_app.
  split; [reflexivity|]. split.
  - destruct (DownloaderFacts.try_body_trace _ _ _ E)
      as [_ [[-> _]|[_ (n & rest & -> & Hp)]]]; [constructor|].
    simpl. constructor; [now left|].
    eapply Forall_impl; [|exact Hp]. intros s Hs. now right.
  - destruct term; try discriminate Hterm; [now left|right; now eexists].
Qed.

Lemma bytes_written_length (acts : list action) :
  bytes_written acts = Z.of_nat (length (file_content acts)).
Proof.
  induction acts as [|[c|s] acts IH]; simpl; [reflexivity| |exact IH].
  rewrite length_app, IH. lia.
Qed.

End RunFacts.

(** X1. What a download leaves in the file is the start of the response
    body, and the whole body when the run sent [succeeded]; without a
    response nothing is written and [failed] carries the text of the
    exception of [requests.get]. *)
Theorem download_writes_the_body (net : Downloader.network) :
  let trace := Downloader.run net in
  (forall r, net = inr r ->
     exists rest,
       concat (map fst (Downloader.body r)) = (file_content trace ++ rest)%list
       /\ (In succeeded (Downloader.signals trace) -> rest = []))
  /\ (forall e, net = inl e -> trace = [Downloader.Emit (failed e)]).
Proof.
  intros trace. subst trace.
  destruct (RunFacts.run_unfold net)
    as (acts & exc & term & E & -> & Hterm & Hsucc & Hfail & Hno & _).
  destruct (RunFacts.try_body_file _ _ _ E) as (Hfile & Hget & _).
  split.
  - intros r Hr. destruct (Hfile r Hr) as (rest & Hrest & Hnone).
    exists rest. rewrite TransferFacts.file_content_app. simpl.
    rewrite app_nil_r. split; [exact Hrest|].
    rewrite DownloaderFacts.signals_app. intros Hin.
    apply in_app_or in Hin as [Hin|[Hin|[]]]; [now elim Hno|].
    apply Hnone, Hsucc. now symmetry.
  - intros e He. destruct (Hget e He) as [-> Hexc]. simpl.
    do 2 f_equal. now apply Hfail.
Qed.

(** X2. As long as a run gives fewer than 2^31 bytes to [f.write], its
    progress values grow strictly, start above zero, and the last one is
    the number of bytes given to [f.write]. *)
Theorem download_progress_increases (net : Downloader.network) :
  (Downloader.bytes_written (Downloader.run net) < 2 ^ 31)%Z ->
  let trace := Downloader.run net in
  let values := progress_values (Downloader.signals trace) in
  StronglySorted Z.lt values
  /\ Forall (fun n => (0 < n)%Z) values
  /\ last values 0%Z = Downloader.bytes_written trace.
Proof.
  intros Hsmall trace values. subst values trace.
  destruct (RunFacts.run_unfold net)
    as (acts & exc & term & E & Hrun & Hterm & _).
  rewrite Hrun in *. clear Hrun.
  destruct (RunFacts.try_body_file _ _ _ E)
    as (_ & _ & counts & Hv & Hs & Hall & Hlast).
  rewrite DownloaderFacts.bytes_written_app in *.
  rewrite DownloaderFacts.signals_app, TransferFacts.progress_values_app.
  cbn [Downloader.bytes_written Downloader.signals] in *.
  replace (progress_values [term]) with (@nil Z)
    by (destruct term; try discriminate Hterm; reflexivity).
  rewrite app_nil_r, Hv, Z.add_0_r in *.
  replace (map to_int32 counts) with counts.
  - split; [exact Hs|]. split; [|now rewrite Hlast].
    eapply Forall_impl; [|exact Hall]. simpl. intros; lia.
  - clear -Hall Hsmall. induction Hall as [|c counts Hc _ IH];
      [reflexivity|].
    simpl. rewrite <- IH. f_equal. symmetry.
    apply DownloaderFacts.to_int32_small.
    change (2 ^ 31)%Z with 2147483648%Z in *. lia.
Qed.

(** ** Launch sessions *)

Lemma in_bounds_nil (row : Z) : in_bounds row [] = false.
Proof.
  unfold in_bounds. simpl.
  destruct (0 <=? row)%Z eqn:E; [|reflexivity].
  apply Z.leb_le in E. simpl. apply Z.ltb_ge. lia.
Qed.

Lemma selected_log m st : selected (log m st) = selected st.
Proof. reflexivity. Qed.

(** A launch request that starts a download: what it leaves behind. *)
Lemma launch_program_starts (e : env) (st : state) (d : descriptor) :
  selected st = Some d ->
  os_path_exists st (binary_path_of (program d)) = false ->
  directory_ready e st (binary_path_of (program d)) = true ->
  let st1 := fst (launch_program e st) in
  threads st1
  = (threads st
     ++ [mkThread (binary_url d) (binary_path_of (program d))
           (Downloader.signals (Downloader.run (network e)) ++ [finished])])%list
  /\ launch_button_enabled st1 = false
  /\ program_data st1 = program_data st
  /\ current_row st1 = current_row st
  /\ popen_calls st1 = popen_calls st.
Proof.
  intros Hsel Hfile Hready.
  destruct (selected_Some _ _ Hsel) as [Hb Hn].
  unfold directory_ready in Hready. enter_launch Hb Hn.
  rewrite Hfile. cbn [negb].
  destruct (os_path_exists st (PyStr.dirname _)); cbn [negb].
  - now repeat split.
  - destruct (makedirs_error e); [discriminate|]. now repeat split.
Qed.

Lemma download_succeeded_popen (e : env) (st : state) :
  popen_calls (download_succeeded e st)
  = (popen_calls st
     ++ match selected st with
        | Some d => [binary_path_of (program d)]
        | None => []
        end)%list.
Proof.
  unfold download_succeeded, selected. cbv zeta.
  rewrite log_current_row, log_program_data.
  destruct (in_bounds (current_row st) (program_data st)) eqn:Hb.
  - destruct (in_bounds_nth _ _ Hb) as [d ->].
    unfold launch_existing_program. now destruct (popen_error e).
  - simpl. now rewrite app_nil_r.
Qed.

Lemma download_finished_fields (st : state) :
  downloader (download_finished st) = None
  /\ launch_button_text (download_finished st) = "Launch"
  /\ popen_calls (download_finished st) = popen_calls st
  /\ log_lines (download_finished st) = log_lines st.
Proof.
  destruct st as [? ? ? ? ? ? ? ? dl ? ? ? ?].
  destruct dl; now repeat split.
Qed.

Lemma set_threads_same (st : state) (ts : list thread) :
  threads st = ts -> set_threads ts st = st.
Proof. intros <-. now destruct st. Qed.

Section Sessions.

Variable default_process : string -> string.
Variable WRatio : string -> string -> Q.

Local Abbreviation run_events := (exec default_process WRatio).
Local Abbreviation turn := (handle default_process WRatio).

Lemma exec_app (a b : list event) (st : state) :
  run_events (a ++ b) st
  = match run_events a st with
    | Some st' => run_events b st'
    | None => None
    end.
Proof.
  revert st. induction a as [|ev a IH]; intros st; simpl; [reflexivity|].
  destruct (turn ev st); [apply IH|reflexivity].
Qed.

(** The signals that go to the progress bar only use up the thread's
    queue. *)
Lemma deliver_progress (e : env) (sigs : list signal) :
  Forall (fun s => Downloader.is_total s = true
                   \/ Downloader.is_progress s = true) sigs ->
  forall st u f rest,
    threads st = [mkThread u f (sigs ++ rest)] ->
    run_events (repeat (Deliver 0 e) (length sigs)) st
    = Some (set_threads [mkThread u f rest] st).
Proof.
  induction 1 as [|s sigs Hs _ IH]; intros st u f rest Hts.
  - simpl. now rewrite set_threads_same.
  - cbn [length repeat exec]. unfold handle. rewrite Hts.
    cbn [pop_signal pending app thread_url thread_filename].
    assert (Hstep : forall s0 : state, on_signal s e s0 = s0)
      by (intros s0; destruct s, Hs; try discriminate; reflexivity).
    destruct s; try (destruct Hs; discriminate);
      rewrite Hstep,
        (IH (set_threads [mkThread u f (sigs ++ rest)] st) u f rest eq_refl);
      reflexivity.
Qed.

(** X3. A download session runs to its end: the file is absent, the
    request starts the thread, and once every signal of the thread has
    been handled no thread is left, [self.downloader] is [None] and the
    launch button is enabled with its label back to [Launch].  When the
    run sent [succeeded], [Popen] has been called once more, with the
    path of the selected descriptor; when it sent [failed], [Popen] has
    not been called and the log holds the failure with its message. *)
Theorem download_session_completes (e e' : env) (st : state)
    (d : descriptor) :
  selected st = Some d ->
  os_path_exists st (binary_path_of (program d)) = false ->
  directory_ready e st (binary_path_of (program d)) = true ->
  threads st = [] ->
  let sent := Downloader.signals (Downloader.run (network e)) in
  exists st2,
    run_events (repeat (Deliver 0 e') (length sent + 1))
      (fst (launch_program e st)) = Some st2
    /\ threads st2 = []
    /\ downloader st2 = None
    /\ launch_button_enabled st2 = true
    /\ launch_button_text st2 = "Launch"
    /\ (In succeeded sent ->
        popen_calls st2
        = (popen_calls st ++ [binary_path_of (program d)])%list)
    /\ (forall message,
          In (failed message) sent ->
          popen_calls st2 = popen_calls st
          /\ In ("Download failed: " ++ message) (log_lines st2)).
Proof.
  intros Hsel Hfile Hready Hnone sent. subst sent.
  destruct (launch_program_starts e st d Hsel Hfile Hready)
    as (Hts & _ & Hpd & Hrow & Hpop).
  set (st1 := fst (launch_program e st)) in *.
  assert (Hsel1 : selected st1 = Some d)
    by (unfold selected; rewrite Hrow, Hpd; exact Hsel).
  destruct (RunFacts.run_signals (network e))
    as (quiet & term & Hsig & Hquiet & Hterm).
  rewrite Hsig in *. rewrite Hnone, <- app_assoc in Hts. simpl in Hts.
  rewrite length_app, <- Nat.add_assoc, repeat_app, exec_app.
  rewrite (deliver_progress e' quiet Hquiet st1 _ _ _ Hts).
  set (u := binary_url d) in *. set (f := binary_path_of (program d)) in *.
  assert (Hnot : forall s, In s quiet -> s <> succeeded
                            /\ forall m, s <> failed m).
  { rewrite Forall_forall in Hquiet. intros s Hs.
    destruct (Hquiet s Hs) as [H|H]; destruct s; try discriminate H;
      (split; [discriminate|intros m; discriminate]). }
  assert (Hterm' : term <> finished)
    by (destruct Hterm as [->|[m ->]]; discriminate).
  set (sA := set_threads [mkThread u f [term; finished]] st1).
  set (sB := on_signal term e' (set_threads [mkThread u f [finished]] sA)).
  assert (HtB : threads sB = [mkThread u f [finished]])
    by (subst sB;
        now destruct (on_signal_frame term e'
                        (set_threads [mkThread u f [finished]] sA) Hterm')
          as [-> _]).
  assert (Hrun : run_events (repeat (Deliver 0 e') (1 + 1)) sA
                 = Some (download_finished (set_threads [] sB))).
  { cbn [Nat.add repeat exec]. unfold handle at 1.
    change (threads sA) with [mkThread u f [term; finished]].
    cbn [pop_signal pending thread_url thread_filename].
    replace (match term with
             | finished => Some (finished, [])
             | _ => Some (term, [mkThread u f [finished]])
             end)
      with (Some (term, [mkThread u f [finished]]))
      by (destruct term; try reflexivity; now elim Hterm').
    fold sB. unfold handle. rewrite HtB.
    reflexivity. }
  exists (download_finished (set_threads [] sB)). split; [exact Hrun|].
  destruct (download_finished_frame (set_threads [] sB)) as [Hth Hen].
  destruct (download_finished_fields (set_threads [] sB))
    as (Hdl & Htext & Hpf & Hlf).
  split; [now rewrite Hth|]. split; [exact Hdl|].
  split; [exact Hen|]. split; [exact Htext|].
  change (popen_calls (set_threads [] sB)) with (popen_calls sB) in Hpf.
  change (log_lines (set_threads [] sB)) with (log_lines sB) in Hlf.
  rewrite Hpf, Hlf. split.
  - intros Hin. apply in_app_or in Hin as [Hin|[Heq|[]]];
      [now destruct (Hnot _ Hin)|].
    subst sB. rewrite Heq. cbn [on_signal].
    rewrite download_succeeded_popen.
    change (selected (set_threads [mkThread u f [finished]] sA))
      with (selected st1).
    rewrite Hsel1.
    change (popen_calls (set_threads [mkThread u f [finished]] sA))
      with (popen_calls st1).
    now rewrite Hpop.
  - intros m Hin. apply in_app_or in Hin as [Hin|[Heq|[]]];
      [now destruct (Hnot _ Hin) as [_ H]; elim (H m)|].
    subst sB. rewrite Heq. cbn [on_signal]. split.
    + change (popen_calls (download_failed m
                             (set_threads [mkThread u f [finished]] sA)))
        with (popen_calls st1).
      exact Hpop.
    + unfold download_failed. simpl. apply in_or_app. right. now left.
Qed.

End Sessions.

(** X4. A launch that fails on [os.makedirs] can be repeated: the failed
    request leaves the launch button and the threads as they were, and
    the same request, once the directory can be made, starts the
    download. *)
Theorem launch_retry_after_makedirs_error (e1 e2 : env) (st : state)
    (d : descriptor) (err : string) :
  selected st = Some d ->
  os_path_exists st (binary_path_of (program d)) = false ->
  os_path_exists st (PyStr.dirname (binary_path_of (program d))) = false ->
  makedirs_error e1 = Some err ->
  makedirs_error e2 = None ->
  let st1 := fst (launch_program e1 st) in
  launch_button_enabled st1 = launch_button_enabled st
  /\ threads st1 = threads st
  /\ exists sigs,
       threads (fst (launch_program e2 st1))
       = (threads st
          ++ [mkThread (binary_url d) (binary_path_of (program d)) sigs])%list.
Proof.
  intros Hsel Hfile Hdir Herr Hok st1.
  assert (Hst1 : st1 = log ("Starting download of " ++ program d)
                         (log "Launch button pressed" st)).
  { subst st1. destruct (selected_Some _ _ Hsel) as [Hb Hn].
    enter_launch Hb Hn. rewrite Hfile, Hdir. cbn [negb]. now rewrite Herr. }
  rewrite Hst1. split; [reflexivity|]. split; [reflexivity|].
  eexists.
  refine (proj1 (launch_program_starts e2 _ d _ _ _)).
  - exact Hsel.
  - exact Hfile.
  - unfold directory_ready. rewrite Hok. apply orb_true_r.
Qed.

(** ** The log only grows *)

Lemma continues_refl st : continues st st.
Proof. split; exists []; now rewrite app_nil_r. Qed.

Lemma continues_trans a b c : continues a b -> continues b c -> continues a c.
Proof.
  intros [[m1 H1] [c1 G1]] [[m2 H2] [c2 G2]]. split.
  - exists (m1 ++ m2)%list. now rewrite H2, H1, app_assoc.
  - exists (c1 ++ c2)%list. now rewrite G2, G1, app_assoc.
Qed.

Lemma continues_fields st st' :
  log_lines st' = log_lines st -> popen_calls st' = popen_calls st ->
  continues st st'.
Proof. intros H G. split; exists []; now rewrite app_nil_r. Qed.

Lemma continues_log m st : continues st (log m st).
Proof. split; [now exists [m]|exists []; now rewrite app_nil_r]. Qed.

Lemma launch_existing_program_continues e path st :
  continues st (launch_existing_program e path st).
Proof.
  unfold launch_existing_program. cbv zeta. split.
  - destruct (popen_error e); eexists; simpl; rewrite <- app_assoc;
      reflexivity.
  - destruct (popen_error e); now exists [path].
Qed.

Lemma launch_program_continues e st :
  continues st (fst (launch_program e st)).
Proof.
  apply (continues_trans _ (log "Launch button pressed" st));
    [apply continues_log|].
  destruct (selected st) as [d|] eqn:Hsel.
  - destruct (selected_Some _ _ Hsel) as [Hb Hn]. enter_launch Hb Hn.
    destruct (os_path_exists st (binary_path_of (program d))); cbn [negb fst].
    + apply launch_existing_program_continues.
    + apply (continues_trans _ (log ("Starting download of " ++ program d)
                                  (log "Launch button pressed" st)));
        [apply continues_log|].
      destruct (os_path_exists st (PyStr.dirname _)); cbn [negb].
      * now apply continues_fields.
      * destruct (makedirs_error e); cbn [fst].
        -- apply continues_refl.
        -- split; [now eexists [_]|exists []; now rewrite app_nil_r].
  - apply selected_None in Hsel. unfold launch_program. cbv zeta.
    rewrite log_current_row, log_program_data, Hsel. cbn [negb fst].
    apply continues_log.
Qed.

Lemma on_signal_continues s e st : continues st (on_signal s e st).
Proof.
  destruct s; cbn [on_signal]; try apply continues_refl.
  - unfold download_succeeded. cbv zeta.
    apply (continues_trans _ (log "Binary downloaded successfully" st));
      [apply continues_log|].
    rewrite log_current_row, log_program_data.
    destruct (in_bounds _ _); [|apply continues_refl].
    destruct (nth_error _ _); [|apply continues_refl].
    apply launch_existing_program_continues.
  - split; [now eexists [_]|exists []; now rewrite app_nil_r].
  - destruct (download_finished_fields st) as (_ & _ & Hp & Hl).
    now apply continues_fields.
Qed.

Section LogGrows.

Variable default_process : string -> string.
Variable WRatio : string -> string -> Q.

Local Abbreviation run_events := (exec default_process WRatio).
Local Abbreviation turn := (handle default_process WRatio).

Lemma handle_continues ev st st' :
  turn ev st = Some st' -> continues st st'.
Proof.
  destruct ev as [text|row|e|i e|paths]; simpl; intros H.
  - injection H as <-.
    destruct (filter_programs_frame default_process WRatio text st)
      as (_ & _ & _ & _ & Hl & _ & _ & Hp).
    now apply continues_fields.
  - destruct (_ && _)%bool; [|discriminate]. injection H as <-.
    now apply continues_fields.
  - destruct (launch_button_enabled st); [|discriminate]. injection H as <-.
    apply launch_program_continues.
  - destruct (pop_signal i (threads st)) as [[s ts]|]; [|discriminate].
    injection H as <-.
    apply (continues_trans _ (set_threads ts st));
      [now apply continues_fields|apply on_signal_continues].
  - injection H as <-. now apply continues_fields.
Qed.

(** X5. Whatever happens in the window, nothing is ever taken out of the
    log or out of the record of [Popen] calls: after any run of events
    both start with what they held before. *)
Theorem log_only_grows (evs : list event) (st st' : state) :
  run_events evs st = Some st' ->
  (exists more, log_lines st' = (log_lines st ++ more)%list)
  /\ (exists calls, popen_calls st' = (popen_calls st ++ calls)%list).
Proof.
  revert st. induction evs as [|ev evs IH]; intros st H; simpl in H.
  - injection H as <-. apply continues_refl.
  - destruct (turn ev st) as [st1|] eqn:E; [|discriminate].
    apply (continues_trans _ st1);
      [now apply (handle_continues ev)|now apply IH].
Qed.

End LogGrows.

(** ** The selection and the view *)

Lemma refresh_list_selection l st :
  selection_in_view (refresh_list (set_program_data l st)).
Proof.
  unfold selection_in_view. destruct l; simpl; split; try reflexivity; lia.
Qed.

Lemma launch_program_row e st :
  current_row (fst (launch_program e st)) = current_row st.
Proof.
  destruct (selected st) as [d|] eqn:Hsel.
  - destruct (selected_Some _ _ Hsel) as [Hb Hn]. enter_launch Hb Hn.
    destruct (os_path_exists st (binary_path_of (program d))); cbn [negb].
    + unfold launch_existing_program. now destruct (popen_error e).
    + destruct (os_path_exists st (PyStr.dirname _)); cbn [negb];
        [reflexivity|]. now destruct (makedirs_error e).
  - apply selected_None in Hsel. unfold launch_program. cbv zeta.
    now rewrite log_current_row, log_program_data, Hsel.
Qed.

Lemma on_signal_row s e st : current_row (on_signal s e st) = current_row st.
Proof.
  destruct s; try reflexivity.
  - unfold on_signal, download_succeeded. cbv zeta.
    rewrite log_current_row, log_program_data.
    destruct (in_bounds _ _); [|reflexivity].
    destruct (nth_error _ _); [|reflexivity].
    unfold launch_existing_program. now destruct (popen_error e).
  - unfold on_signal, download_finished. cbv zeta.
    now destruct (downloader _).
Qed.

Section Views.

Variable default_process : string -> string.
Variable WRatio : string -> string -> Q.

Local Abbreviation search := (filter_programs default_process WRatio).
Local Abbreviation run_events := (exec default_process WRatio).
Local Abbreviation turn := (handle default_process WRatio).
Local Abbreviation kept := (keeps default_process WRatio).

Lemma init_selection data font_loaded paths :
  selection_in_view (init data font_loaded paths).
Proof.
  unfold selection_in_view, init, load_custom_font, load_data.
  destruct font_loaded, data as [d|[|d l]]; simpl; split;
    try reflexivity; lia.
Qed.

Lemma handle_selection ev st st' :
  selection_in_view st -> turn ev st = Some st' -> selection_in_view st'.
Proof.
  intros [Hlist Hrow] H. destruct ev as [text|row|e|i e|paths]; simpl in H.
  - injection H as <-. unfold filter_programs.
    destruct (negb _); [apply refresh_list_selection|].
    destruct (collect _ _ _); [apply refresh_list_selection|now split].
  - destruct (_ && _)%bool eqn:E; [|discriminate]. injection H as <-.
    apply andb_true_iff in E as [E1 E2].
    apply Z.leb_le in E1. apply Z.ltb_lt in E2.
    rewrite Hlist, length_map in E2. split; [exact Hlist|]. simpl. lia.
  - destruct (launch_button_enabled st); [|discriminate]. injection H as <-.
    destruct (launch_program_catalog e st) as (Hp & _ & _ & Hl).
    unfold selection_in_view.
    now rewrite Hp, Hl, launch_program_row.
  - destruct (pop_signal i (threads st)) as [[s ts]|]; [|discriminate].
    injection H as <-.
    destruct (on_signal_catalog s e (set_threads ts st)) as (Hp & _ & _ & Hl).
    unfold selection_in_view. now rewrite Hp, Hl, on_signal_row.
  - now injection H as <-.
Qed.

(** X6. In every state the application reaches, the list widget shows the
    names of the active view, in order, and the current row is a row of
    the view or [-1]; so a launch request finds no selection exactly when
    no row is current. *)
Theorem reachable_selection_in_view (st : state) :
  reachable default_process WRatio st ->
  program_list st = map program (program_data st)
  /\ (-1 <= current_row st < Z.of_nat (length (program_data st)))%Z
  /\ (selected st = None <-> current_row st = (-1)%Z).
Proof.
  intros (data & font_loaded & paths & evs & Hexec).
  assert (Hinv : selection_in_view st).
  { revert Hexec. generalize (init_selection data font_loaded paths).
    generalize (init data font_loaded paths). clear.
    induction evs as [|ev evs IH]; intros s Hs H; simpl in H.
    - now injection H as <-.
    - destruct (turn ev s) as [s1|] eqn:E; [|discriminate].
      apply (IH s1); [now apply (handle_selection ev s)|exact H]. }
  destruct Hinv as [Hlist Hrow]. split; [exact Hlist|]. split; [exact Hrow|].
  rewrite selected_None. unfold in_bounds. split.
  - intros H. apply andb_false_iff in H as [H|H].
    + apply Z.leb_gt in H. lia.
    + apply Z.ltb_ge in H. lia.
  - intros ->. reflexivity.
Qed.

(** X7. In every state the application reaches, the original catalog is
    the fetched document, the search choices are its entries paired with
    their search texts, in order, and every entry of the active view is an
    entry of the original. *)
Theorem reachable_catalog_is_the_fetched_one (data : json_data)
    (font_loaded : bool) (paths : list string) (evs : list event)
    (st : state) :
  run_events evs (init data font_loaded paths) = Some st ->
  original_program_data st = entries data
  /\ search_choices st
     = map (fun p => (combined_text p, p)) (original_program_data st)
  /\ incl (program_data st) (original_program_data st).
Proof.
  intros H.
  destruct (exec_consistent default_process WRatio data evs _ _
              (init_consistent data font_loaded paths) H)
    as (Ho & Hl & Hi & _).
  now repeat split.
Qed.

(** A query computes its view from the original catalog and the search
    choices alone. *)
Lemma filter_programs_view (query : string) (st : state) :
  loaded st ->
  exists view,
    forall st2,
      original_program_data st2 = original_program_data st ->
      search_choices st2 = search_choices st ->
      search query st2 = refresh_list (set_program_data view st2).
Proof.
  intros Hload. destruct (PyStr.truthy (PyStr.strip query)) eqn:Hq.
  - destruct (collect_first_with_text (original_program_data st)
                (extract default_process WRatio query
                   (map combined_text (original_program_data st))
                   (length (map combined_text (original_program_data st)))))
      as (view & Hview & _).
    { rewrite Forall_forall. intros r Hr.
      now destruct (extract_In _ _ _ _ _ Hr). }
    exists view. intros st2 Ho Hs. unfold filter_programs.
    rewrite Hq, Hs, Hload, build_search_choices_texts. cbv zeta.
    cbn [negb]. now rewrite Hview.
  - exists (original_program_data st). intros st2 Ho Hs.
    unfold filter_programs. rewrite Hq, Ho. reflexivity.
Qed.

(** X8. A query is answered from the original catalog, not from what the
    previous query left: searching for [q2] after [q1] gives the state
    that searching for [q2] alone gives.  In particular a repeated query
    changes nothing. *)
Theorem search_ignores_previous_query (q1 q2 : string) (st : state) :
  loaded st ->
  search q2 (search q1 st) = search q2 st.
Proof.
  intros Hload.
  destruct (filter_programs_view q1 st Hload) as (v1 & H1).
  destruct (filter_programs_view q2 st Hload) as (v2 & H2).
  rewrite (H1 st eq_refl eq_refl).
  rewrite (H2 st eq_refl eq_refl).
  rewrite (H2 (refresh_list (set_program_data v1 st)) eq_refl eq_refl).
  reflexivity.
Qed.

(** X9. A launch request after a query that nothing matches does nothing
    but log: the view is empty, no row is current, and [launch_program]
    writes [Launch button pressed] and [No program selected] and
    returns. *)
Theorem launch_after_empty_search (e : env) (query : string) (st : state) :
  loaded st ->
  PyStr.truthy (PyStr.strip query) = true ->
  (forall d, In d (original_program_data st) -> kept query d = false) ->
  let st' := search query st in
  program_data st' = []
  /\ current_row st' = (-1)%Z
  /\ launch_program e st'
     = (log "No program selected" (log "Launch button pressed" st'),
        Returned).
Proof.
  intros Hload Hq Hlow st'.
  assert (Hempty : program_data st' = [])
    by (now apply filter_programs_none_kept).
  split; [exact Hempty|]. split.
  - destruct (filter_programs_view query st Hload) as (v & Hv).
    subst st'. rewrite (Hv st eq_refl eq_refl) in *.
    simpl in Hempty. now subst v.
  - unfold launch_program. cbv zeta.
    rewrite log_current_row, log_program_data, Hempty, in_bounds_nil.
    reflexivity.
Qed.

End Views.

(** ** Destination paths *)

Lemma append_inj_l (p a b : string) : p ++ a = p ++ b -> a = b.
Proof.
  induction p as [|c p IH]; simpl; intros H; [exact H|].
  injection H as H. now apply IH.
Qed.

Lemma list_ascii_of_string_app (a b : string) :
  list_ascii_of_string (a ++ b)
  = (list_ascii_of_string a ++ list_ascii_of_string b)%list.
Proof. induction a as [|c a IH]; simpl; [reflexivity|now rewrite IH]. Qed.

Lemma list_ascii_of_string_inj (a b : string) :
  list_ascii_of_string a = list_ascii_of_string b -> a = b.
Proof.
  intros H. rewrite <- (string_of_list_ascii_of_string a),
              <- (string_of_list_ascii_of_string b). now rewrite H.
Qed.

Lemma append_inj_r (a b s : string) : a ++ s = b ++ s -> a = b.
Proof.
  intros H. apply list_ascii_of_string_inj.
  apply (f_equal list_ascii_of_string) in H.
  rewrite !list_ascii_of_string_app in H. now apply app_inv_tail in H.
Qed.

Lemma replace_space_idempotent (s : string) :
  PyStr.replace_space (PyStr.replace_space s) = PyStr.replace_space s.
Proof.
  induction s as [|c s IH]; simpl; [reflexivity|]. rewrite IH. f_equal.
  destruct (Ascii.eqb c " ") eqn:E; [reflexivity|now rewrite E].
Qed.

Lemma destination_paths_same (a b : string) :
  PyStr.replace_space a = PyStr.replace_space b ->
  binary_path_of a = binary_path_of b.
Proof. unfold binary_path_of. now intros ->. Qed.

(** X10. Two names get the same destination path exactly when they are
    equal after their spaces are replaced by underscores; a name and the
    name with underscores for its spaces share one path. *)
Theorem destination_paths_coincide (a b : string) :
  (binary_path_of a = binary_path_of b
   <-> PyStr.replace_space a = PyStr.replace_space b)
  /\ binary_path_of (PyStr.replace_space a) = binary_path_of a.
Proof.
  unfold binary_path_of. split; [split|].
  - intros H. apply append_inj_l in H. now apply append_inj_r in H.
  - now intros ->.
  - now rewrite replace_space_idempotent.
Qed.

(** X11. A descriptor is launched from the file of another one whose name
    differs only by spaces against underscores: when that file exists, a
    launch request starts no download and hands that file to [Popen]. *)
Theorem launch_uses_file_of_similar_name (e : env) (st : state)
    (d d' : descriptor) :
  selected st = Some d ->
  PyStr.replace_space (program d') = PyStr.replace_space (program d) ->
  os_path_exists st (binary_path_of (program d')) = true ->
  let st' := fst (launch_program e st) in
  threads st' = threads st
  /\ popen_calls st'
     = (popen_calls st ++ [binary_path_of (program d')])%list.
Proof.
  intros Hsel Hsame Hfile st'. subst st'.
  assert (Hpath : binary_path_of (program d') = binary_path_of (program d))
    by (now apply destination_paths_same).
  rewrite Hpath in *.
  destruct (selected_Some _ _ Hsel) as [Hb Hn]. enter_launch Hb Hn.
  rewrite Hfile. cbn [negb fst]. unfold launch_existing_program.
  now destruct (popen_error e).
Qed.

Lemma dropwhile_app_all {A} (f : A -> bool) (a b : list A) :
  Forall (fun x => f x = true) a ->
  PyStr.dropwhile f (a ++ b) = PyStr.dropwhile f b.
Proof.
  induction 1 as [|x a Hx _ IH]; simpl; [reflexivity|]. now rewrite Hx.
Qed.

Lemma replace_space_plain (name : string) :
  plain_name name -> plain_name (PyStr.replace_space name).
Proof.
  unfold plain_name. induction name as [|c name IH]; simpl; intros H;
    [constructor|].
  apply Forall_cons_iff in H as [Hc H]. constructor; [|now apply IH].
  now destruct (Ascii.eqb c " ").
Qed.

(** The directory of the destination of a name without separators. *)
Lemma dirname_binary_path (name : string) :
  plain_name name -> PyStr.dirname (binary_path_of name) = ".\bin".
Proof.
  intros Hplain. apply replace_space_plain in Hplain.
  unfold PyStr.dirname, binary_path_of.
  rewrite !list_ascii_of_string_app.
  set (stem := list_ascii_of_string (PyStr.replace_space name)) in *.
  unfold PyStr.rdropwhile at 2.
  rewrite !rev_app_distr, dropwhile_app_all.
  - reflexivity.
  - apply Forall_app. split.
    + repeat constructor.
    + apply Forall_rev. unfold plain_name in Hplain. fold stem in Hplain.
      eapply Forall_impl; [|exact Hplain]. intros c Hc. simpl.
      now rewrite Hc.
Qed.

(** X12. For a name without path separators the directory of the
    destination is [.\bin]: a launch request that finds neither the file
    nor [.\bin], and can create the directory, creates exactly [.\bin]
    and logs the press, the start of the download and the creation. *)
Theorem launch_creates_bin_directory (e : env) (st : state)
    (d : descriptor) :
  selected st = Some d ->
  plain_name (program d) ->
  os_path_exists st (binary_path_of (program d)) = false ->
  os_path_exists st ".\bin" = false ->
  makedirs_error e = None ->
  let st' := fst (launch_program e st) in
  existing st' = (existing st ++ [".\bin"])%list
  /\ log_lines st'
     = (log_lines st
        ++ ["Launch button pressed";
            ("Starting download of " ++ program d)%string;
            "Created directory: .\bin"])%list.
Proof.
  intros Hsel Hplain Hfile Hdir Hok st'. subst st'.
  destruct (selected_Some _ _ Hsel) as [Hb Hn]. enter_launch Hb Hn.
  rewrite Hfile, (dirname_binary_path _ Hplain), Hdir, Hok. cbn [negb fst].
  split; [reflexivity|]. simpl. now rewrite <- !app_assoc.
Qed.

(** ** The footer log *)

Module FooterFacts.
Import Footer.

Lemma split_lines_nonempty (s : string) : split_lines s <> [].
Proof.
  induction s as [|c s IH]; simpl; [discriminate|].
  destruct (Ascii.eqb c newline); [discriminate|].
  destruct (split_lines s); discriminate.
Qed.

Lemma split_lines_one_line (s : string) : Forall one_line (split_lines s).
Proof.
  induction s as [|c s IH]; simpl.
  - constructor; [intros []|constructor].
  - destruct (Ascii.eqb c newline) eqn:E.
    + constructor; [intros []|exact IH].
    + destruct (split_lines s) as [|line lines]; [repeat constructor|].
      * intros [H|[]]. apply Ascii.eqb_neq in E. now elim E.
      * apply Forall_cons_iff in IH as [Hline Hlines].
        constructor; [|exact Hlines].
        intros [H|H]; [|now apply Hline].
        apply Ascii.eqb_neq in E. now elim E.
Qed.

(** Splitting what was joined gives the lines back. *)
Lemma split_app_newline (x s : string) :
  one_line x -> split_lines (x ++ String newline s) = x :: split_lines s.
Proof.
  induction x as [|c x IH]; intros Hx; simpl.
  - reflexivity.
  - destruct (Ascii.eqb c newline) eqn:E.
    + apply Ascii.eqb_eq in E. elim Hx. now left.
    + rewrite IH; [reflexivity|]. intros H. apply Hx. now right.
Qed.

Lemma split_one_line (x : string) : one_line x -> split_lines x = [x].
Proof.
  induction x as [|c x IH]; intros Hx; simpl; [reflexivity|].
  destruct (Ascii.eqb c newline) eqn:E.
  - apply Ascii.eqb_eq in E. elim Hx. now left.
  - rewrite IH; [reflexivity|]. intros H. apply Hx. now right.
Qed.

Lemma split_join (lines : list string) :
  lines <> [] -> Forall one_line lines ->
  split_lines (join_lines lines) = lines.
Proof.
  induction lines as [|x lines IH]; intros Hne Hall; [now elim Hne|].
  apply Forall_cons_iff in Hall as [Hx Hall].
  destruct lines as [|y lines]; [now apply split_one_line|].
  change (join_lines (x :: y :: lines))
    with (x ++ String newline (join_lines (y :: lines))).
  rewrite split_app_newline by exact Hx.
  now rewrite IH.
Qed.

(** Joining what was split gives the text back. *)
Lemma join_split (s : string) : join_lines (split_lines s) = s.
Proof.
  induction s as [|c s IH]; simpl; [reflexivity|].
  pose proof (split_lines_nonempty s) as Hne.
  destruct (split_lines s) as [|line lines]; [now elim Hne|].
  destruct (Ascii.eqb c newline) eqn:E.
  - apply Ascii.eqb_eq in E. subst c.
    change (join_lines ("" :: line :: lines))
      with ("" ++ String newline (join_lines (line :: lines))).
    now rewrite IH.
  - destruct lines as [|l2 lines]; simpl in *; now rewrite IH.
Qed.

Lemma one_line_app (a b : string) :
  one_line a -> one_line b -> one_line (a ++ b).
Proof.
  unfold one_line. intros Ha Hb H.
  rewrite list_ascii_of_string_app in H.
  apply in_app_or in H as [H|H]; [now apply Ha|now apply Hb].
Qed.

Lemma one_line_format (asctime message : string) :
  one_line asctime -> one_line message -> one_line (format asctime message).
Proof.
  intros Ha Hm. unfold format.
  apply one_line_app; [exact Ha|]. apply one_line_app; [|exact Hm].
  unfold one_line. simpl. unfold newline.
  intros H. repeat (destruct H as [H|H]; [discriminate H|]). exact H.
Qed.

(** The last [S n] of a list with one more element. *)
Lemma keep_snoc {A} (n : nat) (l : list A) (x : A) :
  skipn (length (l ++ [x]) - S n) (l ++ [x])
  = (skipn (length l - n) l ++ [x])%list.
Proof.
  rewrite length_app. simpl length.
  replace (length l + 1 - S n) with (length l - n) by lia.
  rewrite skipn_app.
  replace (length l - n - length l) with 0 by lia. reflexivity.
Qed.

Lemma update_footer_log_lines (asctime current_text message : string) :
  update_footer_log asctime current_text message
  = join_lines
      (skipn (length (split_lines current_text) - 2)
         (split_lines current_text)
       ++ [format asctime message]).
Proof.
  unfold update_footer_log. cbv zeta. rewrite <- keep_snoc.
  destruct (Nat.ltb 3 _) eqn:E; [reflexivity|].
  apply Nat.ltb_ge in E.
  replace (length (split_lines current_text ++ [format asctime message]) - 3)
    with 0 by lia.
  reflexivity.
Qed.

Lemma Forall_skipn {A} (P : A -> Prop) (n : nat) (l : list A) :
  Forall P l -> Forall P (skipn n l).
Proof.
  revert l. induction n as [|n IH]; intros l H; [exact H|].
  destruct l; [constructor|]. apply Forall_cons_iff in H as [_ H].
  now apply IH.
Qed.

Lemma update_footer_log_split (asctime current_text message : string) :
  one_line asctime -> one_line message ->
  split_lines (update_footer_log asctime current_text message)
  = (skipn (length (split_lines current_text) - 2)
       (split_lines current_text)
     ++ [format asctime message])%list.
Proof.
  intros Ha Hm. rewrite update_footer_log_lines. apply split_join.
  - now destruct (skipn _ _).
  - apply Forall_app. split.
    + apply Forall_skipn, split_lines_one_line.
    + constructor; [now apply one_line_format|constructor].
Qed.

End FooterFacts.

(** X13. One message more in the footer: the lines of the new text are the
    last two lines of the old text followed by the formatted message, so
    the footer never holds more than three lines and always ends with the
    newest one.  The empty footer counts as one empty line, which stays
    above the first message. *)
Theorem footer_keeps_last_three (asctime current_text message : string) :
  Footer.one_line asctime ->
  Footer.one_line message ->
  let old := Footer.split_lines current_text in
  let new :=
    Footer.split_lines
      (Footer.update_footer_log asctime current_text message) in
  new = (skipn (length old - 2) old ++ [Footer.format asctime message])%list
  /\ 2 <= length new <= 3
  /\ Footer.update_footer_log asctime "" message
     = String Footer.newline (Footer.format asctime message).
Proof.
  intros Ha Hm old new. subst new.
  rewrite (FooterFacts.update_footer_log_split _ _ _ Ha Hm). fold old.
  split; [reflexivity|]. split; [|reflexivity].
  rewrite length_app, length_skipn. simpl.
  assert (old <> []) by apply FooterFacts.split_lines_nonempty.
  destruct old; [contradiction|]. simpl length. lia.
Qed.

(** X14. After three messages the footer shows exactly these three,
    whatever it showed before; the widget is taken to give back the text
    it was given. *)
Theorem footer_after_three_messages (t a1 m1 a2 m2 a3 m3 : string) :
  Footer.one_line a1 -> Footer.one_line m1 ->
  Footer.one_line a2 -> Footer.one_line m2 ->
  Footer.one_line a3 -> Footer.one_line m3 ->
  Footer.update_footer_log a3
    (Footer.update_footer_log a2 (Footer.update_footer_log a1 t m1) m2) m3
  = Footer.join_lines
      [Footer.format a1 m1; Footer.format a2 m2; Footer.format a3 m3].
Proof.
  intros H1 G1 H2 G2 H3 G3.
  rewrite FooterFacts.update_footer_log_lines.
  rewrite (FooterFacts.update_footer_log_split a2 _ m2 H2 G2).
  rewrite (FooterFacts.update_footer_log_split a1 _ m1 H1 G1).
  set (k := skipn _ (Footer.split_lines t)).
  rewrite !(FooterFacts.keep_snoc 1), (FooterFacts.keep_snoc 0).
  rewrite Nat.sub_0_r, skipn_all. reflexivity.
Qed.

(** ** Dragging the window *)

Lemma drag_step (ev : TitleBar.mouse) (w : TitleBar.window) :
  let w' := TitleBar.mouseMoveEvent ev w in
  (TitleBar.px (TitleBar.pos w') - TitleBar.px (TitleBar.old_pos w')
   = TitleBar.px (TitleBar.pos w) - TitleBar.px (TitleBar.old_pos w))%Z
  /\ (TitleBar.py (TitleBar.pos w') - TitleBar.py (TitleBar.old_pos w')
      = TitleBar.py (TitleBar.pos w) - TitleBar.py (TitleBar.old_pos w))%Z
  /\ TitleBar.old_pos w'
     = if TitleBar.left ev then TitleBar.global ev else TitleBar.old_pos w.
Proof.
  unfold TitleBar.mouseMoveEvent. destruct (TitleBar.left ev); simpl;
    repeat split; lia.
Qed.

Lemma drag_invariant (moves : list TitleBar.mouse) :
  forall w,
    let w' := TitleBar.drag moves w in
    (TitleBar.px (TitleBar.pos w') - TitleBar.px (TitleBar.old_pos w')
     = TitleBar.px (TitleBar.pos w) - TitleBar.px (TitleBar.old_pos w))%Z
    /\ (TitleBar.py (TitleBar.pos w') - TitleBar.py (TitleBar.old_pos w')
        = TitleBar.py (TitleBar.pos w) - TitleBar.py (TitleBar.old_pos w))%Z
    /\ TitleBar.old_pos w'
       = TitleBar.global
           (last (filter TitleBar.left moves)
              (TitleBar.mkMouse true (TitleBar.old_pos w))).
Proof.
  induction moves as [|ev moves IH]; intros w; [now repeat split|].
  unfold TitleBar.drag in *. cbn [fold_left filter].
  destruct (IH (TitleBar.mouseMoveEvent ev w)) as (Hx & Hy & Ho).
  destruct (drag_step ev w) as (Sx & Sy & So).
  cbv zeta in *. rewrite Hx, Hy, Ho, Sx, Sy, So. clear.
  split; [reflexivity|]. split; [reflexivity|].
  destruct (TitleBar.left ev); [|reflexivity].
  destruct (filter TitleBar.left moves) as [|m ms]; [reflexivity|].
  change (last (ev :: m :: ms) (TitleBar.mkMouse true (TitleBar.old_pos w)))
    with (last (m :: ms) (TitleBar.mkMouse true (TitleBar.old_pos w))).
  f_equal. apply TransferFacts.last_nonempty.
Qed.

(** X15. A drag moves the window as far as the mouse has moved: after a
    press with the left button at [p0] and any moves, the window is where
    it was plus the way from [p0] to the position of the last move made
    with exactly the left button held; moves with other buttons do not
    count. *)
Theorem drag_follows_the_mouse (p0 : TitleBar.point)
    (moves : list TitleBar.mouse) (w : TitleBar.window) :
  let w0 := TitleBar.mousePressEvent (TitleBar.mkMouse true p0) w in
  let w' := TitleBar.drag moves w0 in
  let pn :=
    TitleBar.global
      (last (filter TitleBar.left moves) (TitleBar.mkMouse true p0)) in
  TitleBar.px (TitleBar.pos w')
  = (TitleBar.px (TitleBar.pos w) + (TitleBar.px pn - TitleBar.px p0))%Z
  /\ TitleBar.py (TitleBar.pos w')
     = (TitleBar.py (TitleBar.pos w) + (TitleBar.py pn - TitleBar.py p0))%Z
  /\ TitleBar.old_pos w' = pn.
Proof.
  intros w0 w' pn.
  destruct (drag_invariant moves w0) as (Hx & Hy & Ho).
  fold w' in Hx, Hy, Ho.
  change (TitleBar.old_pos w0) with p0 in *.
  change (TitleBar.pos w0) with (TitleBar.pos w) in *.
  fold pn in Ho. rewrite Ho in Hx, Hy. repeat split; [lia|lia|exact Ho].
Qed.

(** ** Search results *)

Section SearchResults.

Variable default_process : string -> string.
Variable WRatio : string -> string -> Q.

Local Abbreviation search := (filter_programs default_process WRatio).
Local Abbreviation score := (score_of default_process WRatio).
Local Abbreviation kept := (keeps default_process WRatio).

(** X16. Every entry a query that is not blank returns is an entry of the
    original catalog, scores at least 60 against the query and is the
    first entry of the catalog with its search text; when no entry of the
    catalog scores 60, nothing is returned. *)
Theorem search_returns_only_matches (query : string) (st : state) :
  loaded st ->
  PyStr.truthy (PyStr.strip query) = true ->
  (forall d,
      In d (program_data (search query st)) ->
      In d (original_program_data st)
      /\ (60 <= score query (combined_text d))%Q
      /\ first_with_text (original_program_data st) (combined_text d)
         = Some d)
  /\ ((forall d, In d (original_program_data st) ->
                 ~ (60 <= score query (combined_text d))%Q) ->
      program_data (search query st) = []).
Proof.
  intros Hload Hq. split.
  - intros d Hd.
    destruct (filter_programs_sound default_process WRatio query st d Hload Hq Hd)
      as (Hin & Hk & Hf).
    split; [exact Hin|]. split; [now apply Qle_bool_iff|exact Hf].
  - intros Hlow. apply filter_programs_none_kept; [exact Hload|exact Hq|].
    intros d Hd. unfold keeps.
    destruct (Qle_bool 60 _) eqn:E; [|reflexivity].
    apply Qle_bool_iff in E. now elim (Hlow d Hd).
Qed.

(** X17. The entries a query returns are ordered by descending score:
    no entry scores more than one that stands before it. *)
Theorem search_scores_descend (query : string) (st : state) :
  loaded st ->
  PyStr.truthy (PyStr.strip query) = true ->
  forall i j a b,
    i < j ->
    nth_error (program_data (search query st)) i = Some a ->
    nth_error (program_data (search query st)) j = Some b ->
    (score query (combined_text b) <= score query (combined_text a))%Q.
Proof.
  intros Hload Hq.
  pose proof (filter_programs_descending default_process WRatio query st Hload Hq) as Hs.
  revert Hs. generalize (program_data (search query st)). clear.
  intros l Hs. induction Hs as [|x l _ IH Hall]; intros i j a b Hij Ha Hb.
  - now destruct i.
  - destruct j as [|j]; [lia|]. simpl in Hb. destruct i as [|i].
    + injection Ha as <-. rewrite Forall_forall in Hall.
      apply Hall. now apply nth_error_In in Hb.
    + simpl in Ha. apply (IH i j); [lia|exact Ha|exact Hb].
Qed.

(** X18. When no two entries of the catalog have the same search text, a
    query that is not blank returns exactly the entries that score at
    least 60, each once per occurrence in the catalog, ordered by
    descending score, entries of equal score in the order of the
    catalog. *)
Theorem search_on_distinct_texts (query : string) (st : state) :
  loaded st ->
  PyStr.truthy (PyStr.strip query) = true ->
  NoDup (map combined_text (original_program_data st)) ->
  Permutation (program_data (search query st))
    (filter (kept query) (original_program_data st))
  /\ StronglySorted
       (catalog_order default_process WRatio (original_program_data st)
          query)
       (program_data (search query st)).
Proof. apply filter_programs_distinct_texts. Qed.

End SearchResults.

(** ** The further theorems at concrete inputs *)

(** [Foo] is absent; the five signals of the thread are handled. *)
Lemma download_session_completes_witness :
  selected (init (JDict Sample.foo) true []) = Some Sample.foo
  /\ exists st2,
       exec Sample.default_process Sample.WRatio
         (repeat (Deliver 0 Sample.quiet) 5)
         (fst (launch_program Sample.quiet (init (JDict Sample.foo) true [])))
       = Some st2
       /\ popen_calls st2 = [".\bin\Foo.exe"].
Proof.
  split; [reflexivity|].
  destruct (download_session_completes Sample.default_process Sample.WRatio
              Sample.quiet Sample.quiet (init (JDict Sample.foo) true [])
              Sample.foo eq_refl eq_refl eq_refl eq_refl)
    as (st2 & Hrun & _ & _ & _ & _ & Hok & _).
  exists st2. split; [exact Hrun|]. apply Hok. simpl. auto.
Defined.

(** The directory cannot be made at first and can be made afterwards. *)
Lemma launch_retry_after_makedirs_error_witness :
  selected (init (JDict Sample.foo) true []) = Some Sample.foo
  /\ makedirs_error Sample.quiet = None
  /\ exists sigs,
       threads (fst (launch_program Sample.quiet
                       (fst (launch_program Sample.no_makedirs
                               (init (JDict Sample.foo) true [])))))
       = [mkThread "http://x/foo.exe" ".\bin\Foo.exe" sigs].
Proof.
  split; [reflexivity|]. split; [reflexivity|].
  exact (proj2 (proj2 (launch_retry_after_makedirs_error Sample.no_makedirs
                         Sample.quiet (init (JDict Sample.foo) true [])
                         Sample.foo _ eq_refl eq_refl eq_refl eq_refl
                         eq_refl))).
Defined.

(** One click on the launch button. *)
Lemma log_only_grows_witness :
  exec Sample.default_process Sample.WRatio [LaunchClicked Sample.quiet]
    (init (JDict Sample.foo) true [])
  = Some (fst (launch_program Sample.quiet (init (JDict Sample.foo) true [])))
  /\ exists more,
       log_lines (fst (launch_program Sample.quiet
                         (init (JDict Sample.foo) true [])))
       = (log_lines (init (JDict Sample.foo) true []) ++ more)%list.
Proof.
  split; [reflexivity|].
  exact (proj1 (log_only_grows Sample.default_process Sample.WRatio
                  [LaunchClicked Sample.quiet]
                  (init (JDict Sample.foo) true [])
                  (fst (launch_program Sample.quiet
                          (init (JDict Sample.foo) true [])))
                  eq_refl)).
Defined.

(** The state after a query that nothing matches. *)
Lemma reachable_selection_in_view_witness :
  reachable Sample.default_process Sample.WRatio
    (filter_programs Sample.default_process Sample.WRatio "bar"
       (init (JDict Sample.foo) true []))
  /\ current_row
       (filter_programs Sample.default_process Sample.WRatio "bar"
          (init (JDict Sample.foo) true [])) = (-1)%Z.
Proof.
  assert (H : reachable Sample.default_process Sample.WRatio
                (filter_programs Sample.default_process Sample.WRatio "bar"
                   (init (JDict Sample.foo) true [])))
    by (exists (JDict Sample.foo), true, [], [TextChanged "bar"];
        reflexivity).
  split; [exact H|].
  apply (proj2 (proj2 (reachable_selection_in_view Sample.default_process
                         Sample.WRatio _ H))).
  reflexivity.
Defined.

(** A query on the catalog of three. *)
Lemma reachable_catalog_is_the_fetched_one_witness :
  exec Sample.default_process Sample.WRatio [TextChanged "Tool 3"]
    (init (JList [Sample.tool; Sample.tool3; Sample.tool2]) true [])
  = Some (filter_programs Sample.default_process Sample.WRatio "Tool 3"
            (init (JList [Sample.tool; Sample.tool3; Sample.tool2]) true []))
  /\ original_program_data
       (filter_programs Sample.default_process Sample.WRatio "Tool 3"
          (init (JList [Sample.tool; Sample.tool3; Sample.tool2]) true []))
     = [Sample.tool; Sample.tool3; Sample.tool2].
Proof.
  split; [reflexivity|].
  exact (proj1 (reachable_catalog_is_the_fetched_one Sample.default_process
                  Sample.WRatio
                  (JList [Sample.tool; Sample.tool3; Sample.tool2]) true []
                  [TextChanged "Tool 3"]
                  (filter_programs Sample.default_process Sample.WRatio
                     "Tool 3"
                     (init (JList [Sample.tool; Sample.tool3; Sample.tool2])
                        true []))
                  eq_refl)).
Defined.

(** [Foo] after [bar]. *)
Lemma search_ignores_previous_query_witness :
  loaded (init (JList [Sample.foo; Sample.my_tool]) true [])
  /\ program_data
       (filter_programs Sample.default_process Sample.WRatio "Foo"
          (filter_programs Sample.default_process Sample.WRatio "bar"
             (init (JList [Sample.foo; Sample.my_tool]) true [])))
     = [Sample.foo].
Proof.
  split; [reflexivity|].
  rewrite (search_ignores_previous_query Sample.default_process Sample.WRatio
             "bar" "Foo" (init (JList [Sample.foo; Sample.my_tool]) true [])
             eq_refl).
  reflexivity.
Defined.

(** The query [bar] on the catalog that holds [Foo]. *)
Lemma launch_after_empty_search_witness :
  loaded (init (JDict Sample.foo) true [])
  /\ PyStr.truthy (PyStr.strip "bar") = true
  /\ snd (launch_program Sample.quiet
            (filter_programs Sample.default_process Sample.WRatio "bar"
               (init (JDict Sample.foo) true [])))
     = Returned.
Proof.
  split; [reflexivity|]. split; [reflexivity|].
  rewrite (proj2 (proj2 (launch_after_empty_search Sample.default_process
                           Sample.WRatio Sample.quiet "bar"
                           (init (JDict Sample.foo) true []) eq_refl eq_refl
                           (fun d H =>
                              match H with
                              | or_introl E =>
                                  eq_ind Sample.foo
                                    (fun x => keeps Sample.default_process
                                                Sample.WRatio "bar" x = false)
                                    eq_refl d E
                              | or_intror F => match F with end
                              end)))).
  reflexivity.
Defined.

(** [My Tool] is selected and the file of [My_Tool] is on disk. *)
Lemma launch_uses_file_of_similar_name_witness :
  selected (init (JDict Sample.my_tool) true [".\bin\My_Tool.exe"])
  = Some Sample.my_tool
  /\ popen_calls
       (fst (launch_program Sample.quiet
               (init (JDict Sample.my_tool) true [".\bin\My_Tool.exe"])))
     = [".\bin\My_Tool.exe"].
Proof.
  split; [reflexivity|].
  exact (proj2 (launch_uses_file_of_similar_name Sample.quiet
                  (init (JDict Sample.my_tool) true [".\bin\My_Tool.exe"])
                  Sample.my_tool
                  (mkDescriptor "My_Tool" "1" "other" "http://x/other.exe")
                  eq_refl eq_refl eq_refl)).
Defined.

(** [Foo] on an empty disk. *)
Lemma launch_creates_bin_directory_witness :
  plain_name "Foo"
  /\ existing (fst (launch_program Sample.quiet
                      (init (JDict Sample.foo) true [])))
     = [".\bin"].
Proof.
  assert (H : plain_name "Foo") by (repeat constructor).
  split; [exact H|].
  exact (proj1 (launch_creates_bin_directory Sample.quiet
                  (init (JDict Sample.foo) true []) Sample.foo
                  eq_refl H eq_refl eq_refl eq_refl)).
Defined.

Lemma one_line_time : Footer.one_line "2024-05-01 10:00:00,000".
Proof.
  unfold Footer.one_line, Footer.newline. simpl.
  intros H. repeat (destruct H as [H|H]; [discriminate H|]). exact H.
Defined.

Lemma one_line_started : Footer.one_line "Application started".
Proof.
  unfold Footer.one_line, Footer.newline. simpl.
  intros H. repeat (destruct H as [H|H]; [discriminate H|]). exact H.
Defined.

(** The first message in an empty footer. *)
Lemma footer_keeps_last_three_witness :
  Footer.one_line "Application started"
  /\ Footer.split_lines
       (Footer.update_footer_log "2024-05-01 10:00:00,000" ""
          "Application started")
     = [""; "2024-05-01 10:00:00,000 - INFO - Application started"].
Proof.
  split; [exact one_line_started|].
  exact (proj1 (footer_keeps_last_three "2024-05-01 10:00:00,000" ""
                  "Application started" one_line_time one_line_started)).
Defined.

(** Three messages into a footer that held two lines. *)
Lemma footer_after_three_messages_witness :
  Footer.one_line "Application started"
  /\ Footer.split_lines
       (Footer.update_footer_log "2024-05-01 10:00:00,000"
          (Footer.update_footer_log "2024-05-01 10:00:00,000"
             (Footer.update_footer_log "2024-05-01 10:00:00,000"
                (Footer.join_lines ["a"; "b"]) "Application started")
             "Application started")
          "Application started")
     = ["2024-05-01 10:00:00,000 - INFO - Application started";
        "2024-05-01 10:00:00,000 - INFO - Application started";
        "2024-05-01 10:00:00,000 - INFO - Application started"].
Proof.
  split; [exact one_line_started|].
  rewrite (footer_after_three_messages _ _ _ _ _ _ _
             one_line_time one_line_started one_line_time one_line_started
             one_line_time one_line_started).
  reflexivity.
Defined.

(** The query [Foo] on the catalog of [Foo] and [My Tool]. *)
Lemma search_returns_only_matches_witness :
  loaded (init (JList [Sample.foo; Sample.my_tool]) true [])
  /\ PyStr.truthy (PyStr.strip "Foo") = true
  /\ In Sample.foo (original_program_data
                      (init (JList [Sample.foo; Sample.my_tool]) true [])).
Proof.
  split; [reflexivity|]. split; [reflexivity|].
  apply (proj1 (search_returns_only_matches Sample.default_process
                  Sample.WRatio "Foo"
                  (init (JList [Sample.foo; Sample.my_tool]) true [])
                  eq_refl eq_refl) Sample.foo).
  simpl. auto.
Defined.

(** The query [Tool] on the catalog of three: first against second. *)
Lemma search_scores_descend_witness :
  loaded (init (JList [Sample.tool; Sample.tool3; Sample.tool2]) true [])
  /\ (score_of Sample.default_process Sample.WRatio "Tool"
        (combined_text Sample.tool3)
      <= score_of Sample.default_process Sample.WRatio "Tool"
           (combined_text Sample.tool))%Q.
Proof.
  split; [reflexivity|].
  apply (search_scores_descend Sample.default_process Sample.WRatio "Tool"
           (init (JList [Sample.tool; Sample.tool3; Sample.tool2]) true [])
           eq_refl eq_refl 0 1); [lia|reflexivity|reflexivity].
Defined.

Lemma sample_texts_differ :
  NoDup (map combined_text [Sample.foo; Sample.my_tool]).
Proof.
  repeat constructor; simpl; intuition discriminate.
Defined.

(** The query [Foo] on a catalog of two different search texts. *)
Lemma search_on_distinct_texts_witness :
  NoDup (map combined_text [Sample.foo; Sample.my_tool])
  /\ Permutation
       (program_data
          (filter_programs Sample.default_process Sample.WRatio "Foo"
             (init (JList [Sample.foo; Sample.my_tool]) true [])))
       [Sample.foo].
Proof.
  split; [exact sample_texts_differ|].
  exact (proj1 (search_on_distinct_texts Sample.default_process Sample.WRatio
                  "Foo" (init (JList [Sample.foo; Sample.my_tool]) true [])
                  eq_refl eq_refl sample_texts_differ)).
Defined.

(** The run of two chunks, five bytes in all. *)
Lemma download_progress_increases_witness :
  (Downloader.bytes_written (Downloader.run Sample.two_chunks) < 2 ^ 31)%Z
  /\ last (progress_values
             (Downloader.signals (Downloader.run Sample.two_chunks))) 0%Z
     = 5%Z.
Proof.
  assert (H : (Downloader.bytes_written (Downloader.run Sample.two_chunks)
               < 2 ^ 31)%Z) by reflexivity.
  split; [exact H|].
  exact (proj2 (proj2 (download_progress_increases Sample.two_chunks H))).
Defined.
